(** * Employee churn dashboard (app7.py): a shallow embedding

    The dashboard filters a predictions table by a threshold, derives three
    statistics, ranks the columns of an attribution table by their mean
    absolute value, and renders the results as cards of a page.

    Numbers.  Cells read from the two CSV files are finite numbers and are
    idealised as exact rationals ([Q]): comparisons between finite floats
    agree with the comparison of the rationals they denote.  The one
    non-finite value the program can produce, the mean of an empty column,
    is kept as [nan].  Equalities between computed numbers are stated with
    [==] (Python's [==] on numbers), not with Leibniz equality. *)

From Stdlib Require Import ZArith QArith Qround Qabs String Ascii List Bool Lia.
From Stdlib Require Import Sorted Permutation Lqa.
From stdpp Require Import gmap strings.
Import ListNotations.

Local Open Scope string_scope.
Local Open Scope list_scope.

(** ** Python values the program manipulates *)

Module Py.

(** The built-in exceptions that the expressions of app7.py can raise. *)
Inductive exn : Set :=
| ZeroDivisionError
| ValueError
| TypeError
| KeyError.

Inductive outcome (A : Type) : Type :=
| Ok (a : A)
| Raise (e : exn).
Arguments Ok {A} a.
Arguments Raise {A} e.

Definition bind {A B : Type} (m : outcome A) (k : A -> outcome B) : outcome B :=
  match m with
  | Ok a => k a
  | Raise e => Raise e
  end.

(** A Python float: [nan] or a finite value. *)
Inductive pyfloat : Type :=
| nan
| fin (q : Q).

(** [a / b] on two ints ([len(x) / len(y)]). *)
Definition truediv (a b : nat) : outcome Q :=
  match b with
  | O => Raise ZeroDivisionError
  | S _ => Ok (Z.of_nat a # Pos.of_nat b)
  end.

(** [round(x)] with one argument: the nearest integer, ties to the even
    one; [round(nan)] raises [ValueError]. *)
Definition round_half_even (q : Q) : Z :=
  let f := Qfloor q in
  match (q - inject_Z f ?= 1 # 2)%Q with
  | Lt => f
  | Gt => (f + 1)%Z
  | Eq => if Z.even f then f else (f + 1)%Z
  end.

Definition round (x : pyfloat) : outcome Z :=
  match x with
  | nan => Raise ValueError
  | fin q => Ok (round_half_even q)
  end.

(** [sub in s] on strings. *)
Fixpoint contains (sub s : string) : bool :=
  String.prefix sub s ||
  match s with
  | EmptyString => false
  | String _ s' => contains sub s'
  end.

(** [s.replace(old, new)] for a non-empty [old]: one left-to-right scan,
    occurrences do not overlap.  [skip] counts the characters of the
    occurrence just matched that are still to be dropped. *)
Fixpoint replace_from (old new : string) (skip : nat) (s : string) : string :=
  match s with
  | EmptyString => EmptyString
  | String c s' =>
      match skip with
      | S k => replace_from old new k s'
      | O =>
          if String.prefix old s
          then new ++ replace_from old new (String.length old - 1) s'
          else String c (replace_from old new 0 s')
      end
  end.

Definition replace (old new s : string) : string := replace_from old new 0 s.

End Py.

Import Py.

(** ** The two tables (pandas data frames) *)

(** A cell of a column the program does not compute with. *)
Inductive Cell : Type :=
| CInt (z : Z)
| CNum (q : Q)
| CStr (s : string).

(** One row of predictions.csv after the rename of its probability column
    to [Prediction]; [fields] holds the remaining columns by name. *)
Record PredictionRecord : Type := {
  EmployeeNumber : Z;
  YearsAtCompany : Z;
  Prediction : Q;
  fields : list (string * Cell)
}.

(** shapley_values.csv, column by column. *)
Definition AttributionMatrix : Type := list (string * list Q).

(** [Series.sum] and [Series.mean]. *)
Definition Qsum (xs : list Q) : Q := fold_right Qplus 0%Q xs.

Definition mean (xs : list Q) : pyfloat :=
  match xs with
  | [] => nan
  | _ :: _ => fin (Qsum xs / inject_Z (Z.of_nat (List.length xs)))
  end.

(** ** Threshold filter and statistics (home, lines 114-120) *)

(** [predictions[predictions['Prediction'] > threshold]] *)
Definition exceeds (threshold : Q) (r : PredictionRecord) : bool :=
  negb (Qle_bool (Prediction r) threshold).

Definition churned_employees (predictions : list PredictionRecord) (threshold : Q)
  : list PredictionRecord :=
  List.filter (exceeds threshold) predictions.

(** The three values shown by the stats card, before they are rendered as
    text. *)
Record Stats : Type := {
  count : nat;
  fraction : Q;
  averageTenure : Z
}.

Definition stat_count (churned : list PredictionRecord) : nat := List.length churned.

Definition stat_fraction (churned predictions : list PredictionRecord) : outcome Q :=
  truediv (List.length churned) (List.length predictions).

Definition stat_tenure (churned : list PredictionRecord) : outcome Z :=
  round (mean (List.map (fun r => inject_Z (YearsAtCompany r)) churned)).

(** The arguments of [ui.stats] are evaluated in the order written. *)
Definition stats (predictions : list PredictionRecord) (threshold : Q) : outcome Stats :=
  let churned := churned_employees predictions threshold in
  let n := stat_count churned in
  bind (stat_fraction churned predictions) (fun f =>
  bind (stat_tenure churned) (fun a =>
  Ok {| count := n; fraction := f; averageTenure := a |})).

(** Lines 114-120 when the threshold may be [None] (an attribute that was
    never assigned): [Series > None] is [False] on every row, so nothing
    is selected, and the statistics are those of the selection. *)
Definition selection (predictions : list PredictionRecord) (threshold : option Q)
  : list PredictionRecord :=
  match threshold with
  | Some t => churned_employees predictions t
  | None => []
  end.

Definition stats_of (churned predictions : list PredictionRecord) : outcome Stats :=
  let n := stat_count churned in
  bind (stat_fraction churned predictions) (fun f =>
  bind (stat_tenure churned) (fun a =>
  Ok {| count := n; fraction := f; averageTenure := a |})).

(** ** Feature importance ranker (get_varimp, lines 145-153) *)

(** The column selection of line 146. *)
Definition is_feature (name : string) : bool :=
  contains "contrib" name && negb (String.eqb name "contrib_bias").

(** [.abs().mean()] of one column. *)
Definition mean_abs (col : list Q) : pyfloat := mean (List.map Qabs col).

(** [a] is placed strictly before [b] by a descending sort that puts
    [nan] last. *)
Definition importance_gtb (a b : pyfloat) : bool :=
  match a, b with
  | fin x, fin y => negb (Qle_bool x y)
  | fin _, nan => true
  | nan, _ => false
  end.

(** [sort_values(by="Importance", ascending=False)], [nan] last.  pandas
    leaves the order of rows of equal importance to its sorting routine;
    here they keep their order, and no property below depends on it. *)
Fixpoint insert_desc (x : string * pyfloat) (l : list (string * pyfloat))
  : list (string * pyfloat) :=
  match l with
  | [] => [x]
  | y :: l' =>
      if importance_gtb (snd y) (snd x) then y :: insert_desc x l' else x :: y :: l'
  end.

Fixpoint sort_values_desc (l : list (string * pyfloat)) : list (string * pyfloat) :=
  match l with
  | [] => []
  | x :: l' => insert_desc x (sort_values_desc l')
  end.

(** Line 146: the columns kept, in column order ([read_csv] gives every
    column a name of its own). *)
Definition selected_columns (shapley_vals : AttributionMatrix) : AttributionMatrix :=
  List.filter (fun c => is_feature (fst c)) shapley_vals.

(** The frame after line 149: one row (Feature, Importance) per selected
    column. *)
Definition importance_rows (shapley_vals : AttributionMatrix) : list (string * pyfloat) :=
  let varimp := selected_columns shapley_vals in
  let varimp := List.map (fun c => (fst c, mean_abs (snd c))) varimp in
  List.map (fun r => (replace "contrib_" "" (fst r), snd r)) varimp.

Definition get_varimp (shapley_vals : AttributionMatrix) (top_n : nat)
  : list (string * pyfloat) :=
  let varimp := importance_rows shapley_vals in
  let varimp := firstn top_n (sort_values_desc varimp) in
  rev varimp.

(** The default of the [top_n] argument. *)
Definition default_top_n : nat := 5.

(** The order in which the returned list ascends: [nan] (the importance of
    a column without rows) below every number. *)
Definition importance_le (a b : pyfloat) : Prop :=
  match a, b with
  | nan, _ => True
  | fin _, nan => False
  | fin x, fin y => (x <= y)%Q
  end.



(** ** The page, the query context and the handlers *)

(** Items of a form card, and the cards the program puts on the page.
    Values are kept as computed; their rendering as text ([str],
    [format]) belongs to the display. *)
Inductive Item : Type :=
| text (content : string)
| slider (value : option Q)
| stats_item (s : Stats)
| table (columns : list string) (rows : list (Z * list Cell)).

Inductive Card : Type :=
| meta_card
| header_card
| footer_card
| vega_card (source : list PredictionRecord)
| plot_card (rows : list (string * pyfloat))
| form_card (items : list Item).

(** [q.app], [q.client] and [q.args].  An attribute that was never
    assigned reads as [None]; the tables and the card set are read only
    after [init_app] and [init] assigned them, and are given as empty until
    then. *)
Record AppState : Type := {
  app_initialized : bool;
  app_predictions : list PredictionRecord;
  app_shapley : AttributionMatrix
}.

Record ClientState : Type := {
  client_initialized : bool;
  client_cards : gset string;
  client_dark_mode : bool;
  client_threshold : option Q
}.

Record Args : Type := {
  args_threshold : option Q;
  args_submitted : option string
}.

(** [page] holds the cards as the handlers have written them, [browser]
    the page as last sent by the [q.page.save()] of [serve].  What the
    framework itself sends when a request raises is not modelled. *)
Record Query : Type := {
  app : AppState;
  client : ClientState;
  args : Args;
  page : gmap string Card;
  browser : gmap string Card
}.

Definition set_app (a : AppState) (q : Query) : Query :=
  {| app := a; client := client q; args := args q; page := page q; browser := browser q |}.

Definition set_client (c : ClientState) (q : Query) : Query :=
  {| app := app q; client := c; args := args q; page := page q; browser := browser q |}.

Definition set_args (a : Args) (q : Query) : Query :=
  {| app := app q; client := client q; args := a; page := page q; browser := browser q |}.

Definition set_page (p : gmap string Card) (q : Query) : Query :=
  {| app := app q; client := client q; args := args q; page := p; browser := browser q |}.

(** A handler: it updates the query context and returns or raises; what it
    wrote before raising stays written. *)
Definition M (A : Type) : Type := Query -> Query * outcome A.

Definition ret {A : Type} (a : A) : M A := fun q => (q, Ok a).

Definition raise {A : Type} (e : exn) : M A := fun q => (q, Raise e).

Definition bindM {A B : Type} (m : M A) (k : A -> M B) : M B :=
  fun q =>
    match m q with
    | (q', Ok a) => k a q'
    | (q', Raise e) => (q', Raise e)
    end.

Definition get : M Query := fun q => (q, Ok q).

Definition modify (f : Query -> Query) : M unit := fun q => (f q, Ok tt).

Definition lift {A : Type} (o : outcome A) : M A := fun q => (q, o).

Declare Scope handler_scope.
Delimit Scope handler_scope with handler.
Notation "x <- m ;; k" := (bindM m (fun x => k))
  (at level 100, m at next level, right associativity) : handler_scope.
Notation "m ;; k" := (bindM m (fun _ => k))
  (at level 100, right associativity) : handler_scope.

(** The state a run leaves behind, and its result. *)
Definition exec {A : Type} (m : M A) (q : Query) : Query := fst (m q).
Definition result {A : Type} (m : M A) (q : Query) : outcome A := snd (m q).

(** [add_card] and [clear_cards] (lines 157-166). *)
Definition add_card (name : string) (card : Card) : M unit :=
  modify (fun q =>
    let c := client q in
    set_page (<[name := card]> (page q))
      (set_client {| client_initialized := client_initialized c;
                     client_cards := {[name]} ∪ client_cards c;
                     client_dark_mode := client_dark_mode c;
                     client_threshold := client_threshold c |} q)).

Definition drop_card (ignore : list string) (name : string) (q : Query) : Query :=
  if existsb (String.eqb name) ignore then q
  else
    let c := client q in
    set_page (delete name (page q))
      (set_client {| client_initialized := client_initialized c;
                     client_cards := client_cards c ∖ {[name]};
                     client_dark_mode := client_dark_mode c;
                     client_threshold := client_threshold c |} q).

Definition clear_cards (ignore : list string) : M unit :=
  modify (fun q => set_fold (drop_card ignore) q (client_cards (client q))).

(** [q.page.save()] *)
Definition save : M unit :=
  modify (fun q =>
    {| app := app q; client := client q; args := args q;
       page := page q; browser := page q |}).

(** [row[cols]] on a row of the predictions table. *)
Fixpoint lookup_field (c : string) (fs : list (string * Cell)) : outcome Cell :=
  match fs with
  | [] => Raise KeyError
  | (k, v) :: fs' => if String.eqb k c then Ok v else lookup_field c fs'
  end.

Definition row_get (r : PredictionRecord) (c : string) : outcome Cell :=
  if String.eqb c "EmployeeNumber" then Ok (CInt (EmployeeNumber r))
  else if String.eqb c "YearsAtCompany" then Ok (CInt (YearsAtCompany r))
  else if String.eqb c "Prediction" then Ok (CNum (Prediction r))
  else lookup_field c (fields r).

Fixpoint traverse {A B : Type} (f : A -> outcome B) (l : list A) : outcome (list B) :=
  match l with
  | [] => Ok []
  | a :: l' => bind (f a) (fun b => bind (traverse f l') (fun bs => Ok (b :: bs)))
  end.

Definition table_row (cols : list string) (r : PredictionRecord)
  : outcome (Z * list Cell) :=
  bind (traverse (row_get r) cols) (fun cells => Ok (EmployeeNumber r, cells)).

(** Line 101: the threshold a run of [home] works with. *)
Definition current_threshold (q : Query) : option Q :=
  match args_threshold (args q) with
  | None => client_threshold (client q)
  | Some t => Some t
  end.

Local Open Scope handler_scope.

(** The charting library builds the histogram of lines 83-86 for tables of
    at most 5000 rows and raises for larger ones, before [home] has added a
    card.  The properties that say how a run of [home] ends are stated for
    tables within this limit. *)
Definition chart_row_limit : Z := 5000.

Definition chartable (predictions : list PredictionRecord) : Prop :=
  (Z.of_nat (List.length predictions) <= chart_row_limit)%Z.

(** [home] (lines 78-134).  The histogram of lines 83-86 is kept as the
    table it is built from; the row limit of the charting library is not
    part of [home] and appears as the hypothesis [chartable] where a
    property depends on it. *)
Definition home : M unit :=
  clear_cards [] ;;
  q <- get ;;
  add_card "predictions_card" (vega_card (app_predictions (app q))) ;;
  let varimp := get_varimp (app_shapley (app q)) default_top_n in
  add_card "varimp_card" (plot_card varimp) ;;
  let threshold := current_threshold q in
  add_card "description_card" (form_card
    [text "Use the slider below to change the cutoff for churn prediction and update the statistics."]) ;;
  add_card "threshold_card" (form_card [slider threshold]) ;;
  let churned_employees := selection (app_predictions (app q)) threshold in
  s <- lift (stats_of churned_employees (app_predictions (app q))) ;;
  add_card "stats_card" (form_card [stats_item s]) ;;
  let cols := "EmployeeNumber" :: List.map fst varimp ++ ["Prediction"] in
  rows <- lift (traverse (table_row cols) churned_employees) ;;
  add_card "table_card" (form_card [table cols rows]).

(** [threshold] (lines 136-138). *)
Definition threshold : M unit := home.

(** The functions a request can be routed to by [run_on]. *)
Inductive Handler : Set :=
| on_home
| on_threshold
| on_render_employee.

Section Framework.

(** What the program takes from outside: the two static files as
    [read_csv] returns them (the probability column already under its
    new name), and two behaviours of h2o_wave: the handler that [run_on]
    selects for the arguments of a request, and the effect on the page
    of assigning [items] through a subscript of the query object. *)
Variable static_predictions : list PredictionRecord.
Variable static_shapley : AttributionMatrix.
Variable run_on_target : Args -> option Handler.
Variable subscript_set_items : string -> gmap string Card -> outcome (gmap string Card).

(** [init_app] (lines 29-37). *)
Definition init_app : M unit :=
  modify (fun q =>
    set_app {| app_initialized := app_initialized (app q);
               app_predictions := static_predictions;
               app_shapley := static_shapley |} q).

(** [init] (lines 40-75). *)
Definition init : M unit :=
  modify (fun q =>
    let c := client q in
    set_client {| client_initialized := client_initialized c;
                  client_cards := ∅;
                  client_dark_mode := false;
                  client_threshold := client_threshold c |} q) ;;
  modify (fun q => set_page (<["meta" := meta_card]> (page q)) q) ;;
  modify (fun q => set_page (<["header" := header_card]> (page q)) q) ;;
  modify (fun q => set_page (<["footer" := footer_card]> (page q)) q) ;;
  modify (fun q =>
    let c := client q in
    set_client {| client_initialized := client_initialized c;
                  client_cards := client_cards c;
                  client_dark_mode := client_dark_mode c;
                  client_threshold := Some (5 # 10)%Q |} q) ;;
  home.

(** [render_employee] (lines 140-143). *)
Definition render_employee : M unit :=
  q <- get ;;
  p <- lift (subscript_set_items "table_card" (page q)) ;;
  modify (set_page p) ;;
  save.

Definition run_handler (h : Handler) : M unit :=
  match h with
  | on_home => home
  | on_threshold => threshold
  | on_render_employee => render_employee
  end.

Definition run_on : M bool :=
  q <- get ;;
  match run_on_target (args q) with
  | Some h => run_handler h ;; ret true
  | None => ret false
  end.

(** [q.app.initialized = True] and [q.client.initialized = True]. *)
Definition set_app_initialized : M unit :=
  modify (fun q =>
    set_app {| app_initialized := true;
               app_predictions := app_predictions (app q);
               app_shapley := app_shapley (app q) |} q).

Definition set_client_initialized : M unit :=
  modify (fun q =>
    let c := client q in
    set_client {| client_initialized := true;
                  client_cards := client_cards c;
                  client_dark_mode := client_dark_mode c;
                  client_threshold := client_threshold c |} q).

(** [serve] (lines 12-26). *)
Definition serve : M unit :=
  q <- get ;;
  (if app_initialized (app q) then ret tt
   else init_app ;; set_app_initialized) ;;
  q <- get ;;
  (if client_initialized (client q) then ret tt
   else init ;; set_client_initialized) ;;
  run_on ;;
  save.

(** One request of a browser: the framework fills [q.args] and calls
    [serve].  [q.app] and [q.client] are kept from one request to the next,
    also when the request raises; [page] after a request is what the
    handlers have written, and how the framework answers an exception is
    outside the model.  A session is a sequence of requests. *)
Definition request (a : Args) (q : Query) : Query := exec serve (set_args a q).

Definition session (events : list Args) (q : Query) : Query :=
  fold_left (fun q a => request a q) events q.

End Framework.

(** The context of a browser that has not been served yet. *)
Definition fresh : Query :=
  {| app := {| app_initialized := false; app_predictions := []; app_shapley := [] |};
     client := {| client_initialized := false; client_cards := ∅;
                  client_dark_mode := false; client_threshold := None |};
     args := {| args_threshold := None; args_submitted := None |};
     page := ∅;
     browser := ∅ |}.

(** A routing by the name of the submitted control, and a query object
    without subscripts, to run the handlers on concrete requests. *)
Definition route_by_name (a : Args) : option Handler :=
  match args_submitted a with
  | Some name =>
      if String.eqb name "home" then Some on_home
      else if String.eqb name "threshold" then Some on_threshold
      else if String.eqb name "render_employee" then Some on_render_employee
      else None
  | None => None
  end.

Definition not_subscriptable (name : string) (p : gmap string Card)
  : outcome (gmap string Card) := Raise TypeError.

Local Close Scope handler_scope.

(** ** Quantities the properties below speak about *)

(** [Series.min()] and [Series.max()] of the Prediction column; [None] on
    a table without rows. *)
Definition Qmin_of (a b : Q) : Q := if Qle_bool a b then a else b.
Definition Qmax_of (a b : Q) : Q := if Qle_bool a b then b else a.

Definition min_score (predictions : list PredictionRecord) : option Q :=
  match predictions with
  | [] => None
  | r :: rest => Some (fold_left (fun m r' => Qmin_of m (Prediction r')) rest (Prediction r))
  end.

Definition max_score (predictions : list PredictionRecord) : option Q :=
  match predictions with
  | [] => None
  | r :: rest => Some (fold_left (fun m r' => Qmax_of m (Prediction r')) rest (Prediction r))
  end.

(** The fraction shown for a table and a threshold. *)
Definition fraction_of (predictions : list PredictionRecord) (threshold : Q) : outcome Q :=
  stat_fraction (churned_employees predictions threshold) predictions.

(** The tenure column of the selected rows and its mean, before rounding. *)
Definition tenures (churned : list PredictionRecord) : list Q :=
  List.map (fun r => inject_Z (YearsAtCompany r)) churned.

Definition mean_tenure (churned : list PredictionRecord) : pyfloat :=
  mean (tenures churned).

(** The name spelled by [segs] with the marker between them and before
    [last]. *)
Fixpoint marked (segs : list string) (last : string) : string :=
  match segs with
  | [] => last
  | s :: segs' => s ++ "contrib_" ++ marked segs' last
  end.

Fixpoint unmarked (segs : list string) (last : string) : string :=
  match segs with
  | [] => last
  | s :: segs' => s ++ unmarked segs' last
  end.

(** Rows used in the examples. *)
Definition employee (id : Z) (score : Q) (tenure : Z) : PredictionRecord :=
  {| EmployeeNumber := id; YearsAtCompany := tenure; Prediction := score; fields := [] |}.

(** The matrix of the ranking example: mean absolute values 0.9 and 0.3. *)
Definition example_matrix : AttributionMatrix :=
  [ ("contrib_A", [9 # 10; -9 # 10]%Q);
    ("contrib_B", [-3 # 10; 3 # 10]%Q);
    ("contrib_bias", [2; 2]%Q) ].

(** What no handler of the program changes: the application tables, the
    arguments of the request, the stored threshold and the flag of the
    browser. *)
Record frame (q q' : Query) : Prop := {
  frame_app : app q' = app q;
  frame_args : args q' = args q;
  frame_threshold : client_threshold (client q') = client_threshold (client q);
  frame_initialized : client_initialized (client q') = client_initialized (client q)
}.

Definition keeps_frame {A} (m : M A) : Prop := forall q, frame q (exec m q).

(** [P] survives a run, whether the run returns or raises. *)
Definition always {A} (P : Query -> Prop) (m : M A) : Prop :=
  forall q, P q -> P (exec m q).

Definition threshold_is (v : option Q) (q : Query) : Prop :=
  client_threshold (client q) = v.

(** The invariant of a session: an initialised browser has 0.5 stored. *)
Definition threshold_invariant (q : Query) : Prop :=
  client_initialized (client q) = true -> threshold_is (Some (5 # 10)%Q) q.

(** The page once [home] has written the slider (lines 80-112). *)
Definition rendered (q : Query) : Query :=
  let q1 := exec (clear_cards []) q in
  let varimp := get_varimp (app_shapley (app q1)) default_top_n in
  exec (add_card "predictions_card" (vega_card (app_predictions (app q1))) ;;
        add_card "varimp_card" (plot_card varimp) ;;
        add_card "description_card" (form_card
          [text "Use the slider below to change the cutoff for churn prediction and update the statistics."]) ;;
        add_card "threshold_card" (form_card [slider (current_threshold q1)]))%handler q1.

(** The context once [serve] has loaded the application tables. *)
Definition loaded (static_predictions : list PredictionRecord)
    (static_shapley : AttributionMatrix) (q : Query) : Query :=
  if app_initialized (app q) then q
  else exec set_app_initialized (exec (init_app static_predictions static_shapley) q).

(** The requests that [run_on] hands to [home], directly or through
    [threshold]. *)
Definition recomputes (run_on_target : Args -> option Handler) (a : Args) : Prop :=
  run_on_target a = Some on_home \/ run_on_target a = Some on_threshold.

(** Line 73 is the only assignment to [q.client.threshold].  Every run of
    [init] executes it once, before it calls [home], and [serve] runs
    [init] at the requests that find [q.client.initialized] unset (lines
    20-22).  [threshold_writes] counts its executions over the requests of
    a session. *)
Fixpoint threshold_writes (static_predictions : list PredictionRecord)
    (static_shapley : AttributionMatrix) (run_on_target : Args -> option Handler)
    (subscript_set_items : string -> gmap string Card -> outcome (gmap string Card))
    (events : list Args) (q : Query) : nat :=
  match events with
  | [] => 0
  | a :: events' =>
      (if client_initialized (client q) then 0 else 1) +
      threshold_writes static_predictions static_shapley run_on_target
        subscript_set_items events'
        (request static_predictions static_shapley run_on_target subscript_set_items a q)
  end.

(** A predictions table on which the threshold 0.5 selects nothing. *)
Definition low_scores : list PredictionRecord := [employee 1 (3 # 10) 2].

(** Requests and contexts used in the examples. *)
Definition slider_event (t : Q) : Args :=
  {| args_threshold := Some t; args_submitted := Some "threshold" |}.

Definition home_event : Args :=
  {| args_threshold := None; args_submitted := Some "home" |}.

Definition example_predictions : list PredictionRecord :=
  [ {| EmployeeNumber := 1; YearsAtCompany := 4; Prediction := 6 # 10;
       fields := [("A", CNum (12 # 10)); ("B", CStr "Sales")] |};
    {| EmployeeNumber := 2; YearsAtCompany := 2; Prediction := 3 # 10;
       fields := [("A", CNum (7 # 10)); ("B", CStr "Research")] |} ].


Definition served (shapley : AttributionMatrix) (a : Args) : Query :=
  {| app := {| app_initialized := true; app_predictions := example_predictions;
               app_shapley := shapley |};
     client := {| client_initialized := true; client_cards := ∅;
                  client_dark_mode := false; client_threshold := Some (5 # 10)%Q |};
     args := a;
     page := ∅;
     browser := ∅ |}.


(** ** Quantities of the further properties *)

(** [name in ignore] (line 164). *)
Definition ignored (ignore : list string) (name : string) : bool :=
  existsb (String.eqb name) ignore.

(** The columns of a row of the predictions table. *)
Definition has_column (r : PredictionRecord) (c : string) : bool :=
  String.eqb c "EmployeeNumber" || String.eqb c "YearsAtCompany" ||
  String.eqb c "Prediction" || existsb (fun kv => String.eqb (fst kv) c) (fields r).

(** The columns of the employee table for a ranking (line 126). *)
Definition table_columns (varimp : list (string * pyfloat)) : list string :=
  "EmployeeNumber" :: List.map fst varimp ++ ["Prediction"].

(** The ranking a run of [home] works with (line 93). *)
Definition ranking (q : Query) : list (string * pyfloat) :=
  get_varimp (app_shapley (app q)) default_top_n.

(** The rows a run of [home] selects (line 114). *)
Definition selected (q : Query) : list PredictionRecord :=
  selection (app_predictions (app q)) (current_threshold q).

(** Some selected row lacks a column named by the ranking. *)
Definition missing_column (q : Query) : Prop :=
  exists r name,
    In r (selected q) /\
    In name (List.map fst (ranking q)) /\
    has_column r name = false.

(** The names under which [home] adds cards: those up to the slider, and
    all of them. *)
Definition slider_cards : gset string :=
  {["predictions_card"; "varimp_card"; "description_card"; "threshold_card"]}.

Definition home_cards : gset string :=
  slider_cards ∪ {["stats_card"; "table_card"]}.

(** [q.app] once [init_app] has run and the flag is set. *)
Definition static_app (static_predictions : list PredictionRecord)
    (static_shapley : AttributionMatrix) : AppState :=
  {| app_initialized := true;
     app_predictions := static_predictions;
     app_shapley := static_shapley |}.

(** The threshold the first run of [home] in a browser works with. *)
Definition first_threshold (a : Args) : Q :=
  match args_threshold a with
  | Some t => t
  | None => (5 # 10)%Q
  end.

(** The attribution table with the sign of every value changed. *)
Definition flip_signs (m : AttributionMatrix) : AttributionMatrix :=
  List.map (fun c => (fst c, List.map Qopp (snd c))) m.

(** * Properties *)

(** ** The threshold filter and the statistics *)

Lemma exceeds_true t r : exceeds t r = true <-> (t < Prediction r)%Q.
Proof.
  unfold exceeds. rewrite negb_true_iff. split; intro H.
  - apply Qnot_le_lt. intro Hle. apply Qle_bool_iff in Hle. congruence.
  - destruct (Qle_bool (Prediction r) t) eqn:E; [|reflexivity].
    apply Qle_bool_iff in E. exfalso. exact (Qlt_not_le _ _ H E).
Qed.

Lemma churned_In p t r :
  In r (churned_employees p t) <-> In r p /\ (t < Prediction r)%Q.
Proof. unfold churned_employees. rewrite filter_In, exceeds_true. reflexivity. Qed.

Lemma churned_length_le p t :
  (List.length (churned_employees p t) <= List.length p)%nat.
Proof. apply filter_length_le. Qed.

Lemma churned_nil_iff p t :
  churned_employees p t = [] <-> forall r, In r p -> ~ (t < Prediction r)%Q.
Proof.
  split.
  - intros H r Hin Hlt.
    assert (Hc : In r (churned_employees p t)) by (apply churned_In; auto).
    rewrite H in Hc. destruct Hc.
  - intros H. destruct (churned_employees p t) as [|r l] eqn:E; [reflexivity|].
    assert (Hc : In r (churned_employees p t)) by (rewrite E; left; reflexivity).
    apply churned_In in Hc. destruct Hc as [Hin Hlt]. destruct (H r Hin Hlt).
Qed.

Lemma churned_all p t :
  (forall r, In r p -> (t < Prediction r)%Q) -> churned_employees p t = p.
Proof.
  induction p as [|r p IH]; intros H; [reflexivity|].
  unfold churned_employees in *. simpl.
  assert (E : exceeds t r = true) by (apply exceeds_true, H; left; reflexivity).
  rewrite E. f_equal. apply IH. intros r' Hr'. apply H. right. exact Hr'.
Qed.

Lemma pos_of_nat_succ n : Z.pos (Pos.of_nat (S n)) = Z.of_nat (S n).
Proof. rewrite <- Pos.of_nat_succ, Zpos_P_of_succ_nat. lia. Qed.

Lemma truediv_succ a n : truediv a (S n) = Ok (Z.of_nat a # Pos.of_nat (S n)).
Proof. reflexivity. Qed.

Lemma truediv_bounds a n f :
  (a <= S n)%nat -> truediv a (S n) = Ok f -> (0 <= f /\ f <= 1)%Q.
Proof.
  intros Hle H. rewrite truediv_succ in H. injection H as <-.
  unfold Qle. cbn [Qnum Qden]. rewrite pos_of_nat_succ. split; lia.
Qed.

Lemma truediv_zero n f : truediv 0 (S n) = Ok f -> (f == 0)%Q.
Proof.
  intros H. rewrite truediv_succ in H. injection H as <-.
  unfold Qeq. cbn [Qnum Qden]. lia.
Qed.

Lemma truediv_full n f : truediv (S n) (S n) = Ok f -> (f == 1)%Q.
Proof.
  intros H. rewrite truediv_succ in H. injection H as <-.
  unfold Qeq. cbn [Qnum Qden]. rewrite pos_of_nat_succ. lia.
Qed.


Lemma Qmin_of_l a b : (Qmin_of a b <= a)%Q.
Proof.
  unfold Qmin_of. destruct (Qle_bool a b) eqn:E; [apply Qle_refl|].
  apply Qlt_le_weak, Qnot_le_lt. intro H. apply Qle_bool_iff in H. congruence.
Qed.

Lemma Qmin_of_r a b : (Qmin_of a b <= b)%Q.
Proof.
  unfold Qmin_of. destruct (Qle_bool a b) eqn:E; [|apply Qle_refl].
  apply Qle_bool_iff. exact E.
Qed.

Lemma Qmax_of_l a b : (a <= Qmax_of a b)%Q.
Proof.
  unfold Qmax_of. destruct (Qle_bool a b) eqn:E; [|apply Qle_refl].
  apply Qle_bool_iff. exact E.
Qed.

Lemma Qmax_of_r a b : (b <= Qmax_of a b)%Q.
Proof.
  unfold Qmax_of. destruct (Qle_bool a b) eqn:E; [apply Qle_refl|].
  apply Qlt_le_weak, Qnot_le_lt. intro H. apply Qle_bool_iff in H. congruence.
Qed.

Lemma fold_min_lower rest a :
  let m := fold_left (fun m r' => Qmin_of m (Prediction r')) rest a in
  (m <= a)%Q /\ forall r, In r rest -> (m <= Prediction r)%Q.
Proof.
  revert a. induction rest as [|x rest IH]; intros a; cbn.
  - split; [apply Qle_refl | intros r []].
  - destruct (IH (Qmin_of a (Prediction x))) as [H1 H2]. split.
    + eapply Qle_trans; [exact H1 | apply Qmin_of_l].
    + intros r [<- | Hr]; [|apply H2, Hr].
      eapply Qle_trans; [exact H1 | apply Qmin_of_r].
Qed.

Lemma fold_max_upper rest a :
  let m := fold_left (fun m r' => Qmax_of m (Prediction r')) rest a in
  (a <= m)%Q /\ forall r, In r rest -> (Prediction r <= m)%Q.
Proof.
  revert a. induction rest as [|x rest IH]; intros a; cbn.
  - split; [apply Qle_refl | intros r []].
  - destruct (IH (Qmax_of a (Prediction x))) as [H1 H2]. split.
    + eapply Qle_trans; [apply Qmax_of_l | exact H1].
    + intros r [<- | Hr]; [|apply H2, Hr].
      eapply Qle_trans; [apply Qmax_of_r | exact H1].
Qed.

Lemma min_score_lower p m r :
  min_score p = Some m -> In r p -> (m <= Prediction r)%Q.
Proof.
  destruct p as [|x rest]; [discriminate|]. cbn. intros [= <-] Hin.
  destruct (fold_min_lower rest (Prediction x)) as [H1 H2].
  destruct Hin as [<- | Hin]; [exact H1 | apply H2, Hin].
Qed.

Lemma max_score_upper p m r :
  max_score p = Some m -> In r p -> (Prediction r <= m)%Q.
Proof.
  destruct p as [|x rest]; [discriminate|]. cbn. intros [= <-] Hin.
  destruct (fold_max_upper rest (Prediction x)) as [H1 H2].
  destruct Hin as [<- | Hin]; [exact H1 | apply H2, Hin].
Qed.

Lemma stats_unfold p t :
  stats p t =
  bind (fraction_of p t) (fun f =>
  bind (stat_tenure (churned_employees p t)) (fun a =>
  Ok {| count := stat_count (churned_employees p t); fraction := f; averageTenure := a |})).
Proof. reflexivity. Qed.

Lemma fraction_of_cons r p t :
  fraction_of (r :: p) t =
  Ok (Z.of_nat (List.length (churned_employees (r :: p) t)) # Pos.of_nat (S (List.length p))).
Proof. reflexivity. Qed.

Lemma stat_tenure_nil : stat_tenure [] = Raise ValueError.
Proof. reflexivity. Qed.

Lemma stat_tenure_cons r l :
  stat_tenure (r :: l) = Ok (round_half_even
    (Qsum (List.map (fun r => inject_Z (YearsAtCompany r)) (r :: l))
     / inject_Z (Z.of_nat (List.length (List.map (fun r => inject_Z (YearsAtCompany r)) (r :: l)))))).
Proof. reflexivity. Qed.

(** C1 fails on the program: with one row of score 0.3 and threshold 0.9
    nothing is selected and the statistics raise [ValueError], the mean of
    no rows being [nan], which [round] rejects; on the table without rows
    they raise [ZeroDivisionError]. *)
Lemma C1_counterexample :
  let p := [employee 1 (3 # 10) 2] in
  let t := (9 # 10)%Q in
  (forall r, In r p -> ~ (t < Prediction r)%Q) /\
  stats p t = Raise ValueError /\
  ~ (exists s, stats p t = Ok s) /\
  stats [] t = Raise ZeroDivisionError.
Proof.
  cbv zeta. split; [|split; [|split]].
  - intros r [<- | []]. cbn. unfold Qlt. cbn. lia.
  - reflexivity.
  - intros [s Hs]. vm_compute in Hs. discriminate Hs.
  - reflexivity.
Qed.

(** C1, amended.  On a table with rows where no score exceeds the
    threshold, the count is 0 and the fraction is 0.0, and the average
    tenure raises [ValueError], so that the statistics as a whole raise it
    and produce no value for the average. *)
Theorem C1_empty_selection (p : list PredictionRecord) (t : Q) :
  p <> [] ->
  (forall r, In r p -> ~ (t < Prediction r)%Q) ->
  stat_count (churned_employees p t) = 0%nat /\
  (exists f, fraction_of p t = Ok f /\ (f == 0)%Q) /\
  stat_tenure (churned_employees p t) = Raise ValueError /\
  stats p t = Raise ValueError.
Proof.
  intros Hne Hsel. apply churned_nil_iff in Hsel.
  destruct p as [|r p]; [congruence|].
  rewrite stats_unfold, fraction_of_cons, Hsel. cbn [List.length bind].
  repeat split.
  eexists. split; [reflexivity|]. unfold Qeq. cbn. reflexivity.
Qed.

Lemma C1_empty_selection_witness :
  let p := [employee 1 (3 # 10) 2; employee 2 (9 # 10) 7] in
  let t := (9 # 10)%Q in
  p <> [] /\
  (forall r, In r p -> ~ (t < Prediction r)%Q) /\
  stat_count (churned_employees p t) = 0%nat /\
  (exists f, fraction_of p t = Ok f /\ (f == 0)%Q) /\
  stat_tenure (churned_employees p t) = Raise ValueError /\
  stats p t = Raise ValueError.
Proof.
  cbv zeta.
  assert (Hne : [employee 1 (3 # 10) 2; employee 2 (9 # 10) 7] <> []) by discriminate.
  assert (Hsel : forall r, In r [employee 1 (3 # 10) 2; employee 2 (9 # 10) 7] ->
                           ~ (9 # 10 < Prediction r)%Q).
  { intros r [<- | [<- | []]]; cbn; unfold Qlt; cbn; lia. }
  split; [exact Hne|]. split; [exact Hsel|].
  exact (C1_empty_selection _ _ Hne Hsel).
Defined.

(** C2 fails on the program: with a single row of score 0.5 and threshold
    0.5 the threshold is at most the minimum score, and the fraction is 0.0,
    because the selection is strict. *)
Lemma C2_counterexample :
  let p := [employee 1 (5 # 10) 3] in
  let t := (5 # 10)%Q in
  p <> [] /\
  exists m f, min_score p = Some m /\ (t <= m)%Q /\
              fraction_of p t = Ok f /\ ~ (f == 1)%Q.
Proof.
  cbv zeta. split; [discriminate|].
  exists (5 # 10)%Q, (0 # 1)%Q. repeat split.
  - unfold Qle. cbn. lia.
  - unfold Qeq. cbn. lia.
Qed.

(** C2, amended.  On a table with rows the fraction is computed and lies
    in [0,1]; it is 1.0 when the threshold is strictly below the minimum
    score and 0.0 when the threshold is at least the maximum score. *)
Theorem C2_fraction (p : list PredictionRecord) (t : Q) :
  p <> [] ->
  exists f, fraction_of p t = Ok f /\
    (0 <= f)%Q /\ (f <= 1)%Q /\
    (forall m, min_score p = Some m -> (t < m)%Q -> (f == 1)%Q) /\
    (forall m, max_score p = Some m -> (m <= t)%Q -> (f == 0)%Q).
Proof.
  intros Hne. destruct p as [|r p]; [congruence|].
  assert (Hdiv : fraction_of (r :: p) t
                 = truediv (List.length (churned_employees (r :: p) t)) (S (List.length p)))
    by reflexivity.
  exists (Z.of_nat (List.length (churned_employees (r :: p) t)) # Pos.of_nat (S (List.length p))).
  split; [reflexivity|].
  pose proof (churned_length_le (r :: p) t) as Hlen. cbn [List.length] in Hlen.
  destruct (truediv_bounds _ _ _ Hlen (truediv_succ _ _)) as [H0 H1].
  split; [exact H0|]. split; [exact H1|]. split.
  - intros m Hm Hlt.
    rewrite churned_all.
    + apply (truediv_full (List.length p)). reflexivity.
    + intros r' Hr'. eapply Qlt_le_trans; [exact Hlt|].
      eapply min_score_lower; eauto.
  - intros m Hm Hle.
    assert (Hnil : churned_employees (r :: p) t = []).
    { apply churned_nil_iff. intros r' Hr' Hlt.
      apply (Qlt_not_le _ _ Hlt). eapply Qle_trans; [|exact Hle].
      eapply max_score_upper; eauto. }
    rewrite Hnil. apply (truediv_zero (List.length p)). reflexivity.
Qed.

Lemma C2_fraction_witness :
  [employee 1 (6 # 10) 4; employee 2 (3 # 10) 2] <> [] /\
  exists f, fraction_of [employee 1 (6 # 10) 4; employee 2 (3 # 10) 2] (5 # 10) = Ok f /\
    (0 <= f)%Q /\ (f <= 1)%Q /\
    (forall m, min_score [employee 1 (6 # 10) 4; employee 2 (3 # 10) 2] = Some m ->
               (5 # 10 < m)%Q -> (f == 1)%Q) /\
    (forall m, max_score [employee 1 (6 # 10) 4; employee 2 (3 # 10) 2] = Some m ->
               (m <= 5 # 10)%Q -> (f == 0)%Q).
Proof.
  split; [discriminate|].
  apply (C2_fraction [employee 1 (6 # 10) 4; employee 2 (3 # 10) 2] (5 # 10)).
  discriminate.
Defined.

Lemma exceeds_mono t1 t2 r :
  (t1 < t2)%Q -> exceeds t2 r = true -> exceeds t1 r = true.
Proof.
  rewrite !exceeds_true. intros H12 H2. eapply Qlt_trans; eauto.
Qed.

(** C5.  For thresholds t1 < t2 the count of rows selected at t1 is at
    least the count selected at t2. *)
Theorem C5_count_monotone (p : list PredictionRecord) (t1 t2 : Q) :
  (t1 < t2)%Q ->
  (stat_count (churned_employees p t2) <= stat_count (churned_employees p t1))%nat.
Proof.
  intros H12. unfold stat_count, churned_employees.
  induction p as [|r p IH]; [apply Nat.le_refl|].
  cbn [List.filter].
  destruct (exceeds t2 r) eqn:E2.
  - rewrite (exceeds_mono _ _ _ H12 E2). cbn [List.length]. lia.
  - destruct (exceeds t1 r); cbn [List.length]; lia.
Qed.

Lemma C5_count_monotone_witness :
  (2 # 10 < 5 # 10)%Q /\
  (stat_count (churned_employees [employee 1 (6 # 10) 4; employee 2 (3 # 10) 2] (5 # 10))
   <= stat_count (churned_employees [employee 1 (6 # 10) 4; employee 2 (3 # 10) 2] (2 # 10)))%nat.
Proof.
  assert (H : (2 # 10 < 5 # 10)%Q) by (unfold Qlt; cbn; lia).
  split; [exact H|].
  apply (C5_count_monotone [employee 1 (6 # 10) 4; employee 2 (3 # 10) 2] (2 # 10) (5 # 10) H).
Defined.




(** C7.  The statistics raise [ZeroDivisionError] on a table without rows,
    and on a table with rows they never raise it. *)
Theorem C7_division_error (p : list PredictionRecord) (t : Q) :
  (List.length p = 0%nat -> stats p t = Raise ZeroDivisionError) /\
  (List.length p <> 0%nat -> stats p t <> Raise ZeroDivisionError).
Proof.
  split.
  - intros H. destruct p; [reflexivity | discriminate H].
  - intros H. destruct p as [|r p]; [exfalso; apply H; reflexivity|].
    rewrite stats_unfold, fraction_of_cons. cbn [bind].
    destruct (churned_employees (r :: p) t) as [|c l].
    + rewrite stat_tenure_nil. cbn. discriminate.
    + rewrite stat_tenure_cons. cbn. discriminate.
Qed.

Lemma C7_division_error_witness :
  (List.length (@nil PredictionRecord) = 0%nat /\
   stats [] (5 # 10) = Raise ZeroDivisionError) /\
  (List.length [employee 1 (3 # 10) 2] <> 0%nat /\
   stats [employee 1 (3 # 10) 2] (5 # 10) <> Raise ZeroDivisionError).
Proof.
  split.
  - split; [reflexivity|].
    exact (proj1 (C7_division_error [] (5 # 10)) eq_refl).
  - assert (H : List.length [employee 1 (3 # 10) 2] <> 0%nat) by (cbn; lia).
    split; [exact H|].
    exact (proj2 (C7_division_error [employee 1 (3 # 10) 2] (5 # 10)) H).
Defined.

(** ** Strings *)

Local Open Scope string_scope.

Lemma string_app_nil (b : string) : "" ++ b = b.
Proof. reflexivity. Qed.

Lemma string_app_cons (x : ascii) (a b : string) : String x a ++ b = String x (a ++ b).
Proof. reflexivity. Qed.

Lemma string_app_assoc (a b c : string) : (a ++ b) ++ c = a ++ (b ++ c).
Proof.
  induction a as [|x a IH]; [reflexivity|].
  rewrite !string_app_cons, IH. reflexivity.
Qed.

Lemma string_length_app (a b : string) :
  String.length (a ++ b) = (String.length a + String.length b)%nat.
Proof.
  induction a as [|x a IH]; [reflexivity|].
  rewrite string_app_cons. cbn [String.length]. rewrite IH. reflexivity.
Qed.

Lemma prefix_cons a sub b s :
  String.prefix (String a sub) (String b s) = true <-> a = b /\ String.prefix sub s = true.
Proof.
  cbn [String.prefix]. destruct (ascii_dec a b) as [->|Hne].
  - split; [intros H; split; [reflexivity | exact H] | intros [_ H]; exact H].
  - split; [discriminate | intros [H _]; contradiction].
Qed.

Lemma prefix_nil_l s : String.prefix "" s = true.
Proof. destruct s; reflexivity. Qed.

Lemma prefix_iff sub s :
  String.prefix sub s = true <-> exists post, s = sub ++ post.
Proof.
  revert s. induction sub as [|a sub IH]; intros s.
  - rewrite prefix_nil_l. split; [intros _; exists s; reflexivity | reflexivity].
  - destruct s as [|b s].
    + split; [discriminate | intros [post H]; discriminate H].
    + rewrite prefix_cons, IH. split.
      * intros [-> [post ->]]. exists post. reflexivity.
      * intros [post H]. rewrite string_app_cons in H.
        injection H as -> ->. split; [reflexivity | eauto].
Qed.

Lemma contains_iff sub s :
  contains sub s = true <-> exists pre post, s = pre ++ sub ++ post.
Proof.
  induction s as [|c s IH].
  - cbn [contains]. rewrite orb_false_r, prefix_iff. split.
    + intros [post H]. exists "", post. exact H.
    + intros [pre [post H]]. destruct pre; [|discriminate H].
      exists post. exact H.
  - cbn [contains]. rewrite orb_true_iff, prefix_iff, IH. split.
    + intros [[post H] | [pre [post H]]].
      * exists "", post. exact H.
      * exists (String c pre), post. rewrite string_app_cons, H. reflexivity.
    + intros [pre [post H]]. destruct pre as [|c' pre].
      * left. exists post. exact H.
      * right. rewrite string_app_cons in H. injection H as _ H. eauto.
Qed.

Lemma contains_cons_false sub c s :
  contains sub (String c s) = false ->
  String.prefix sub (String c s) = false /\ contains sub s = false.
Proof. cbn [contains]. intros H. apply orb_false_iff in H. exact H. Qed.

Lemma prefix_app_within p x y :
  (String.length p <= String.length x)%nat ->
  String.prefix p (x ++ y) = String.prefix p x.
Proof.
  revert x. induction p as [|a p IH]; intros x Hlen.
  - rewrite !prefix_nil_l. reflexivity.
  - destruct x as [|b x]; [cbn in Hlen; lia|].
    rewrite string_app_cons. cbn [String.prefix].
    destruct (ascii_dec a b); [|reflexivity].
    apply IH. cbn in Hlen. lia.
Qed.

(** ** [str.replace] *)

Lemma replace_from_skip old new p b :
  replace_from old new (String.length p) (p ++ b) = replace_from old new 0 b.
Proof.
  induction p as [|c p IH]; [reflexivity|].
  rewrite string_app_cons. cbn [String.length replace_from]. exact IH.
Qed.

Lemma replace_occurrence a old new b :
  replace (String a old) new (String a old ++ b) = new ++ replace (String a old) new b.
Proof.
  unfold replace. rewrite string_app_cons. cbn [replace_from].
  assert (H : String.prefix (String a old) (String a (old ++ b)) = true).
  { apply prefix_iff. exists b. reflexivity. }
  rewrite H. cbn [String.length]. rewrite Nat.sub_succ, Nat.sub_0_r.
  rewrite replace_from_skip. reflexivity.
Qed.

Lemma replace_absent old new s :
  contains old s = false -> replace old new s = s.
Proof.
  unfold replace. induction s as [|c s IH]; intros H; [reflexivity|].
  apply contains_cons_false in H. destruct H as [Hp Hc].
  cbn [replace_from]. rewrite Hp. rewrite (IH Hc). reflexivity.
Qed.

Lemma replace_first_marker a b :
  contains "contrib_" (a ++ "contrib") = false ->
  replace "contrib_" "" (a ++ "contrib_" ++ b) = a ++ replace "contrib_" "" b.
Proof.
  induction a as [|c a IH]; intros H.
  - apply (replace_occurrence "c" "ontrib_" "" b).
  - rewrite string_app_cons in H. apply contains_cons_false in H. destruct H as [Hp Hc].
    rewrite (string_app_cons c a). unfold replace. cbn [replace_from].
    assert (Hw : String.prefix "contrib_" (String c (a ++ "contrib_" ++ b)) = false).
    { change (String c (a ++ "contrib_" ++ b)) with (String c a ++ "contrib" ++ "_" ++ b).
      rewrite <- string_app_assoc.
      rewrite prefix_app_within.
      - rewrite string_app_cons. exact Hp.
      - rewrite string_length_app. cbn. lia. }
    rewrite Hw, (string_app_cons c a). f_equal. apply IH. exact Hc.
Qed.

Local Open Scope list_scope.

(** ** The ranker *)

Lemma importance_le_refl a : importance_le a a.
Proof. destruct a; cbn; [exact I | apply Qle_refl]. Qed.




Lemma insert_desc_perm x l : Permutation (x :: l) (insert_desc x l).
Proof.
  induction l as [|y l IH]; cbn [insert_desc]; [apply Permutation_refl|].
  destruct (importance_gtb (snd y) (snd x)); [|apply Permutation_refl].
  eapply perm_trans; [apply perm_swap|]. apply perm_skip. exact IH.
Qed.

Lemma sort_values_desc_perm l : Permutation l (sort_values_desc l).
Proof.
  induction l as [|x l IH]; cbn [sort_values_desc]; [apply perm_nil|].
  eapply perm_trans; [apply perm_skip, IH | apply insert_desc_perm].
Qed.



Lemma In_firstn {A} (x : A) n l : In x (firstn n l) -> In x l.
Proof.
  intros H. rewrite <- (firstn_skipn n l). apply in_or_app. left. exact H.
Qed.





Lemma get_varimp_length m n :
  List.length (get_varimp m n) = Nat.min n (List.length (importance_rows m)).
Proof.
  unfold get_varimp. rewrite length_rev, length_firstn.
  rewrite <- (Permutation_length (sort_values_desc_perm (importance_rows m))).
  reflexivity.
Qed.


Lemma selected_columns_In m name vals :
  In (name, vals) (selected_columns m) <->
  In (name, vals) m /\
  (exists pre post, name = (pre ++ "contrib" ++ post)%string) /\
  name <> "contrib_bias".
Proof.
  unfold selected_columns. rewrite filter_In. cbn [fst]. unfold is_feature.
  rewrite andb_true_iff, negb_true_iff, contains_iff, String.eqb_neq.
  reflexivity.
Qed.

Lemma replace_marked segs last :
  Forall (fun s => contains "contrib_" (s ++ "contrib")%string = false) segs ->
  contains "contrib_" last = false ->
  replace "contrib_" "" (marked segs last) = unmarked segs last.
Proof.
  intros Hsegs Hlast. induction Hsegs as [|s segs Hs _ IH]; cbn [marked unmarked].
  - apply replace_absent, Hlast.
  - rewrite (replace_first_marker s _ Hs), IH. reflexivity.
Qed.



(** C9.  A column is selected if and only if its name has "contrib"
    somewhere in it and is not "contrib_bias"; its row carries the name
    with the marker replaced and the mean of its absolute values.  The
    replacement removes every occurrence of "contrib_" met by the scan, not
    only a leading one.  In the example a name with "contrib" at its end is
    ranked, a bias column spelled "contrib_Bias" is ranked too, and
    "contrib_Job_contrib_Level" is shown as "Job_Level". *)
Theorem C9_selection_by_substring :
  (forall m name vals,
      In (name, vals) (selected_columns m) <->
      In (name, vals) m /\
      (exists pre post, name = (pre ++ "contrib" ++ post)%string) /\
      name <> "contrib_bias") /\
  (forall m, importance_rows m =
     List.map (fun c => (replace "contrib_" "" (fst c), mean_abs (snd c)))
              (selected_columns m)) /\
  (forall segs last,
      Forall (fun s => contains "contrib_" (s ++ "contrib")%string = false) segs ->
      contains "contrib_" last = false ->
      replace "contrib_" "" (marked segs last) = unmarked segs last) /\
  List.map fst
    (get_varimp [ ("Age_contrib", [1]%Q);
                  ("contrib_Bias", [2]%Q);
                  ("bias", [3]%Q);
                  ("contrib_bias", [4]%Q);
                  ("contrib_Job_contrib_Level", [5]%Q) ] default_top_n)
  = ["Age_contrib"; "Bias"; "Job_Level"].
Proof.
  split; [|split; [|split]].
  - intros m name vals. apply selected_columns_In.
  - intros m. unfold importance_rows. rewrite map_map. reflexivity.
  - apply replace_marked.
  - vm_compute. reflexivity.
Qed.

Lemma C9_selection_by_substring_witness :
  replace "contrib_" "" (marked [""; "Job_"] "Level") = unmarked [""; "Job_"] "Level".
Proof.
  apply (proj1 (proj2 (proj2 C9_selection_by_substring))).
  - repeat constructor.
  - reflexivity.
Defined.

(** ** The handlers *)

Lemma exec_bindM {A B} (m : M A) (k : A -> M B) q :
  exec (bindM m k) q =
  match result m q with
  | Ok a => exec (k a) (exec m q)
  | Raise _ => exec m q
  end.
Proof.
  unfold exec, result, bindM. destruct (m q) as [q' [a|e]]; reflexivity.
Qed.

Lemma result_bindM {A B} (m : M A) (k : A -> M B) q :
  result (bindM m k) q =
  match result m q with
  | Ok a => result (k a) (exec m q)
  | Raise e => Raise e
  end.
Proof.
  unfold exec, result, bindM. destruct (m q) as [q' [a|e]]; reflexivity.
Qed.

Lemma frame_refl q : frame q q.
Proof. split; reflexivity. Qed.

Lemma frame_trans q1 q2 q3 : frame q1 q2 -> frame q2 q3 -> frame q1 q3.
Proof.
  intros [A1 B1 C1 D1] [A2 B2 C2 D2]. split; congruence.
Qed.

Lemma keeps_frame_bindM {A B} (m : M A) (k : A -> M B) :
  keeps_frame m -> (forall a, keeps_frame (k a)) -> keeps_frame (bindM m k).
Proof.
  intros Hm Hk q. rewrite exec_bindM. destruct (result m q) as [a|e].
  - eapply frame_trans; [apply Hm | apply Hk].
  - apply Hm.
Qed.

Lemma keeps_frame_ret {A} (a : A) : keeps_frame (ret a).
Proof. intros q. apply frame_refl. Qed.

Lemma keeps_frame_raise {A} e : keeps_frame (@raise A e).
Proof. intros q. apply frame_refl. Qed.

Lemma keeps_frame_lift {A} (o : outcome A) : keeps_frame (lift o).
Proof. intros q. apply frame_refl. Qed.

Lemma keeps_frame_get : keeps_frame get.
Proof. intros q. apply frame_refl. Qed.

Lemma keeps_frame_add_card name card : keeps_frame (add_card name card).
Proof. intros q. split; reflexivity. Qed.

Lemma keeps_frame_save : keeps_frame save.
Proof. intros q. split; reflexivity. Qed.

Lemma frame_drop_card ignore name q : frame q (drop_card ignore name q).
Proof.
  unfold drop_card. destruct (existsb (String.eqb name) ignore).
  - apply frame_refl.
  - split; reflexivity.
Qed.

Lemma frame_foldr_drop_card ignore names q :
  frame q (foldr (drop_card ignore) q names).
Proof.
  induction names as [|n names IH]; cbn [foldr].
  - apply frame_refl.
  - eapply frame_trans; [exact IH | apply frame_drop_card].
Qed.

Lemma keeps_frame_clear_cards ignore : keeps_frame (clear_cards ignore).
Proof.
  intros q. unfold clear_cards, modify, exec. cbn [fst].
  unfold set_fold. cbn. apply frame_foldr_drop_card.
Qed.

Create HintDb frame_db.
#[local] Hint Resolve keeps_frame_ret keeps_frame_raise keeps_frame_lift keeps_frame_get
  keeps_frame_add_card keeps_frame_save keeps_frame_clear_cards : frame_db.

Ltac frame_step :=
  repeat (first
    [ apply keeps_frame_bindM; [| intros ? ]
    | solve [ auto with frame_db ] ]).

Lemma keeps_frame_home : keeps_frame home.
Proof. unfold home. frame_step. Qed.

Lemma current_threshold_frame q q' : frame q q' -> current_threshold q' = current_threshold q.
Proof.
  intros [_ Ha Ht _]. unfold current_threshold. rewrite Ha, Ht. reflexivity.
Qed.

Lemma stats_of_selected p t : stats_of (selection p (Some t)) p = stats p t.
Proof. reflexivity. Qed.

Lemma clear_cards_run ignore q :
  clear_cards ignore q = (exec (clear_cards ignore) q, Ok tt).
Proof. reflexivity. Qed.

Lemma bindM_get {B} (k : Query -> M B) q : bindM get k q = k q q.
Proof. reflexivity. Qed.

Lemma bindM_lift {A B} (o : outcome A) (k : A -> M B) q :
  bindM (lift o) k q = match o with Ok a => k a q | Raise e => (q, Raise e) end.
Proof. destruct o; reflexivity. Qed.

Lemma add_card_run name card q :
  add_card name card q = (exec (add_card name card) q, Ok tt).
Proof. reflexivity. Qed.

Lemma bindM_add_card {B} name card (k : unit -> M B) q :
  bindM (add_card name card) k q = k tt (exec (add_card name card) q).
Proof. reflexivity. Qed.

Lemma exec_add_card_seq {B} name card (k : unit -> M B) q :
  exec (bindM (add_card name card) k) q = exec (k tt) (exec (add_card name card) q).
Proof. reflexivity. Qed.

Lemma home_unfold q :
  home q =
  let varimp := get_varimp (app_shapley (app q)) default_top_n in
  let q5 := rendered q in
  let churned := selection (app_predictions (app q)) (current_threshold q) in
  match stats_of churned (app_predictions (app q)) with
  | Raise e => (q5, Raise e)
  | Ok s =>
      let q6 := exec (add_card "stats_card" (form_card [stats_item s])) q5 in
      let cols := "EmployeeNumber" :: List.map fst varimp ++ ["Prediction"] in
      match traverse (table_row cols) churned with
      | Raise e => (q6, Raise e)
      | Ok rows => (exec (add_card "table_card" (form_card [table cols rows])) q6, Ok tt)
      end
  end.
Proof.
  pose proof (keeps_frame_clear_cards [] q) as Hf.
  unfold home, rendered. unfold bindM at 1. rewrite clear_cards_run. cbv zeta.
  rewrite <- (frame_app _ _ Hf), <- (current_threshold_frame _ _ Hf).
  generalize (exec (clear_cards []) q). clear Hf. intros q1.
  rewrite !exec_add_card_seq.
  rewrite bindM_get, !bindM_add_card, bindM_lift.
  destruct (stats_of _ _) as [s|e]; [|reflexivity].
  rewrite bindM_add_card, bindM_lift.
  destruct (traverse _ _) as [rows|e]; [|reflexivity].
  rewrite add_card_run. reflexivity.
Qed.



Lemma rendered_threshold_card q :
  page (rendered q) !! "threshold_card"
  = Some (form_card [slider (current_threshold q)]).
Proof.
  pose proof (keeps_frame_clear_cards [] q) as Hf.
  unfold rendered. cbv zeta. remember (exec (clear_cards []) q) as q1 eqn:E. clear E.
  unfold exec, bindM. cbn [add_card modify fst snd page set_page set_client].
  rewrite (current_threshold_frame _ _ Hf).
  apply lookup_insert_eq.
Qed.

(** The cards [home] writes after the slider leave the earlier ones as
    they are. *)
Lemma home_page_before_stats q name :
  name <> "stats_card" -> name <> "table_card" ->
  page (exec home q) !! name = page (rendered q) !! name.
Proof.
  intros H1 H2. unfold exec at 1. rewrite home_unfold. cbv zeta.
  destruct (stats_of _ _) as [s|e]; [|reflexivity].
  destruct (traverse _ _) as [rows|e]; cbn [fst];
    unfold exec; cbn [add_card modify fst page set_page set_client].
  - rewrite lookup_insert_ne by congruence.
    rewrite lookup_insert_ne by congruence. reflexivity.
  - rewrite lookup_insert_ne by congruence. reflexivity.
Qed.


Lemma home_threshold_card q :
  page (exec home q) !! "threshold_card"
  = Some (form_card [slider (current_threshold q)]).
Proof.
  rewrite home_page_before_stats by discriminate. apply rendered_threshold_card.
Qed.

Lemma home_stats_card q t s :
  current_threshold q = Some t ->
  stats (app_predictions (app q)) t = Ok s ->
  page (exec home q) !! "stats_card" = Some (form_card [stats_item s]).
Proof.
  intros Ht Hs.
  unfold exec at 1. rewrite home_unfold. cbv zeta.
  rewrite Ht, stats_of_selected, Hs.
  destruct (traverse _ _) as [rows|e]; cbn [fst];
    unfold exec; cbn [add_card modify fst page set_page set_client].
  - rewrite lookup_insert_ne by discriminate. apply lookup_insert_eq.
  - apply lookup_insert_eq.
Qed.

Lemma home_result_stats q t :
  current_threshold q = Some t ->
  forall e, stats (app_predictions (app q)) t = Raise e -> result home q = Raise e.
Proof.
  intros Ht e Hs.
  unfold result. rewrite home_unfold. cbv zeta.
  rewrite Ht, stats_of_selected, Hs. reflexivity.
Qed.

(** *** Invariants of a run *)

Lemma always_bindM {A B} P (m : M A) (k : A -> M B) :
  always P m -> (forall a, always P (k a)) -> always P (bindM m k).
Proof.
  intros Hm Hk q Hq. rewrite exec_bindM. destruct (result m q) as [a|e].
  - apply Hk, Hm, Hq.
  - apply Hm, Hq.
Qed.

Lemma keeps_frame_always {A} (m : M A) v :
  keeps_frame m -> always (threshold_is v) m.
Proof.
  intros Hm q Hq. unfold threshold_is in *.
  rewrite (frame_threshold _ _ (Hm q)). exact Hq.
Qed.

Section FrameworkFacts.

Variable static_predictions : list PredictionRecord.
Variable static_shapley : AttributionMatrix.
Variable run_on_target : Args -> option Handler.
Variable subscript_set_items : string -> gmap string Card -> outcome (gmap string Card).

Local Abbreviation render_employee := (render_employee subscript_set_items).
Local Abbreviation run_handler := (run_handler subscript_set_items).
Local Abbreviation run_on := (run_on run_on_target subscript_set_items).
Local Abbreviation serve :=
  (serve static_predictions static_shapley run_on_target subscript_set_items).
Local Abbreviation request :=
  (request static_predictions static_shapley run_on_target subscript_set_items).
Local Abbreviation session :=
  (session static_predictions static_shapley run_on_target subscript_set_items).

Lemma keeps_frame_render_employee : keeps_frame render_employee.
Proof.
  unfold render_employee. frame_step.
  intros q. split; reflexivity.
Qed.

Lemma keeps_frame_run_handler h : keeps_frame (run_handler h).
Proof.
  destruct h; cbn [run_handler].
  - apply keeps_frame_home.
  - apply keeps_frame_home.
  - apply keeps_frame_render_employee.
Qed.

Lemma keeps_frame_run_on : keeps_frame run_on.
Proof.
  unfold run_on. frame_step.
  match goal with |- context [match ?t with _ => _ end] => destruct t end; frame_step.
  apply keeps_frame_run_handler.
Qed.

Lemma init_threshold q : threshold_is (Some (5 # 10)%Q) (exec init q).
Proof.
  unfold init. rewrite !exec_bindM. cbn [result modify snd].
  unfold threshold_is.
  rewrite (frame_threshold _ _ (keeps_frame_home _)). reflexivity.
Qed.


Local Abbreviation init_app := (init_app static_predictions static_shapley).
Local Abbreviation loaded := (loaded static_predictions static_shapley).
Local Abbreviation recomputes := (recomputes run_on_target).

Lemma serve_unfold q :
  serve q =
  let qa := loaded q in
  if client_initialized (client qa) then (run_on ;; save)%handler qa
  else
    match init qa with
    | (qi, Ok _) => (run_on ;; save)%handler (exec set_client_initialized qi)
    | (qi, Raise e) => (qi, Raise e)
    end.
Proof.
  unfold serve, loaded. unfold bindM at 1. cbn [get].
  unfold bindM at 1.
  destruct (app_initialized (app q)).
  - cbn [ret]. unfold bindM at 1. cbn [get].
    destruct (client_initialized (client q)); [reflexivity|].
    unfold bindM at 1. unfold bindM at 1.
    destruct (init q) as [qi [[]|e]]; reflexivity.
  - unfold bindM at 1. cbn [init_app set_app_initialized modify exec fst].
    unfold bindM at 1. cbn [get].
    match goal with |- context [client_initialized (client ?x)] =>
      destruct (client_initialized (client x)) end; [reflexivity|].
    unfold bindM at 1. unfold bindM at 1.
    match goal with |- context [init ?x] => destruct (init x) as [qi [[]|e]] end;
      reflexivity.
Qed.

Lemma exec_serve q :
  exec serve q =
  let qa := loaded q in
  if client_initialized (client qa) then exec (run_on ;; save)%handler qa
  else
    match result init qa with
    | Ok _ => exec (run_on ;; save)%handler (exec set_client_initialized (exec init qa))
    | Raise _ => exec init qa
    end.
Proof.
  unfold exec at 1. rewrite serve_unfold. cbv zeta.
  destruct (client_initialized (client (loaded q))); [reflexivity|].
  unfold result, exec. destruct (init (loaded q)) as [qi [[]|e]]; reflexivity.
Qed.

Lemma loaded_client q : client (loaded q) = client q.
Proof. unfold loaded. destruct (app_initialized (app q)); reflexivity. Qed.

Lemma loaded_args q : args (loaded q) = args q.
Proof. unfold loaded. destruct (app_initialized (app q)); reflexivity. Qed.

Lemma loaded_page q : page (loaded q) = page q.
Proof. unfold loaded. destruct (app_initialized (app q)); reflexivity. Qed.

Lemma keeps_frame_run_save : keeps_frame (run_on ;; save)%handler.
Proof.
  apply keeps_frame_bindM; [apply keeps_frame_run_on | intros _; apply keeps_frame_save].
Qed.

(** [serve] leaves the stored threshold at 0.5 when it finds it there, and
    puts it there when the browser has not been initialised. *)
Lemma serve_threshold q :
  client_initialized (client q) = false \/ threshold_is (Some (5 # 10)%Q) q ->
  threshold_is (Some (5 # 10)%Q) (exec serve q).
Proof.
  intros H. rewrite exec_serve. cbv zeta.
  rewrite loaded_client.
  destruct (client_initialized (client q)) eqn:Hci.
  - destruct H as [H|H]; [discriminate|].
    apply (keeps_frame_always _ _ keeps_frame_run_save).
    unfold threshold_is. rewrite loaded_client. exact H.
  - pose proof (init_threshold (loaded q)) as Hi.
    destruct (result init (loaded q)) as [[]|e].
    + apply (keeps_frame_always _ _ keeps_frame_run_save). exact Hi.
    + exact Hi.
Qed.

Lemma serve_initialized q :
  client_initialized (client q) = true ->
  client_initialized (client (exec serve q)) = true.
Proof.
  intros H. rewrite exec_serve. cbv zeta.
  rewrite loaded_client, H.
  rewrite (frame_initialized _ _ (keeps_frame_run_save _)).
  rewrite loaded_client. exact H.
Qed.

Lemma request_invariant a q :
  threshold_invariant q -> threshold_invariant (request a q).
Proof.
  intros Hinv _. unfold request. apply serve_threshold.
  cbn [set_args client].
  destruct (client_initialized (client q)) eqn:Hci; [right | left; reflexivity].
  apply Hinv. exact Hci.
Qed.

Lemma session_invariant events q :
  threshold_invariant q -> threshold_invariant (session events q).
Proof.
  revert q. induction events as [|a events IH]; intros q Hq; [exact Hq|].
  cbn [session fold_left]. apply IH, request_invariant, Hq.
Qed.

Lemma fresh_invariant : threshold_invariant fresh.
Proof. intros H. discriminate H. Qed.

Lemma request_threshold a q :
  threshold_invariant q -> threshold_is (Some (5 # 10)%Q) (request a q).
Proof.
  intros Hinv. unfold request. apply serve_threshold.
  cbn [set_args client].
  destruct (client_initialized (client q)) eqn:Hci; [right | left; reflexivity].
  apply Hinv. exact Hci.
Qed.

Lemma session_threshold a events q :
  threshold_invariant q ->
  threshold_is (Some (5 # 10)%Q) (session (events ++ [a]) q).
Proof.
  intros Hq. unfold session. rewrite fold_left_app. cbn [fold_left].
  apply request_threshold, session_invariant, Hq.
Qed.

Lemma init_initialized q :
  client_initialized (client (exec init q)) = client_initialized (client q).
Proof.
  unfold init. rewrite !exec_bindM. cbn [result modify snd].
  rewrite (frame_initialized _ _ (keeps_frame_home _)). reflexivity.
Qed.

(** [serve] assigns the stored threshold exactly at the requests that find
    the browser not initialised. *)
Lemma serve_threshold_exact q :
  client_threshold (client (exec serve q))
  = if client_initialized (client q) then client_threshold (client q)
    else Some (5 # 10)%Q.
Proof.
  rewrite exec_serve. cbv zeta. rewrite loaded_client.
  destruct (client_initialized (client q)).
  - rewrite (frame_threshold _ _ (keeps_frame_run_save _)).
    rewrite loaded_client. reflexivity.
  - pose proof (init_threshold (loaded q)) as Hi. unfold threshold_is in Hi.
    destruct (result init (loaded q)) as [[]|e]; [|exact Hi].
    rewrite (frame_threshold _ _ (keeps_frame_run_save _)). exact Hi.
Qed.

Lemma serve_flag q :
  client_initialized (client (exec serve q))
  = if client_initialized (client q) then true
    else match result init (loaded q) with Ok _ => true | Raise _ => false end.
Proof.
  rewrite exec_serve. cbv zeta. rewrite loaded_client.
  destruct (client_initialized (client q)) eqn:Hci.
  - rewrite (frame_initialized _ _ (keeps_frame_run_save _)).
    rewrite loaded_client. exact Hci.
  - destruct (result init (loaded q)) as [[]|e].
    + rewrite (frame_initialized _ _ (keeps_frame_run_save _)). reflexivity.
    + rewrite init_initialized, loaded_client. exact Hci.
Qed.

Local Abbreviation threshold_writes :=
  (threshold_writes static_predictions static_shapley run_on_target subscript_set_items).

Lemma writes_initialized events q :
  client_initialized (client q) = true -> threshold_writes events q = 0%nat.
Proof.
  revert q. induction events as [|a events IH]; intros q Hq; [reflexivity|].
  cbn [threshold_writes]. rewrite Hq. cbn [Nat.add]. apply IH.
  unfold request. rewrite serve_flag. cbn [set_args client]. rewrite Hq. reflexivity.
Qed.

Lemma writes_first_returns a events q :
  client_initialized (client q) = false ->
  result init (loaded (set_args a q)) = Ok tt ->
  threshold_writes (a :: events) q = 1%nat.
Proof.
  intros Hq Hi. cbn [threshold_writes]. rewrite Hq.
  rewrite writes_initialized; [reflexivity|].
  unfold request. rewrite serve_flag. cbn [set_args client]. rewrite Hq, Hi. reflexivity.
Qed.

Lemma writes_first_raises a events q e :
  client_initialized (client q) = false ->
  result init (loaded (set_args a q)) = Raise e ->
  client_initialized (client (request a q)) = false /\
  threshold_writes (a :: events) q = S (threshold_writes events (request a q)).
Proof.
  intros Hq Hi. split.
  - unfold request. rewrite serve_flag. cbn [set_args client]. rewrite Hq, Hi. reflexivity.
  - cbn [threshold_writes]. rewrite Hq. reflexivity.
Qed.

Lemma init_args q : args (exec init q) = args q.
Proof.
  unfold init. rewrite !exec_bindM. cbn [result modify snd].
  rewrite (frame_args _ _ (keeps_frame_home _)). reflexivity.
Qed.

Lemma init_threshold_card q :
  page (exec init q) !! "threshold_card"
  = Some (form_card [slider (match args_threshold (args q) with
                             | Some t => Some t
                             | None => Some (5 # 10)%Q
                             end)]).
Proof.
  unfold init. rewrite !exec_bindM. cbn [result modify snd].
  rewrite home_threshold_card. reflexivity.
Qed.

Lemma run_save_page q :
  recomputes (args q) ->
  page (exec (run_on ;; save)%handler q) = page (exec home q).
Proof.
  intros Hr. unfold exec, run_on, bindM. cbn [get].
  destruct Hr as [-> | ->]; cbn [run_handler]; unfold threshold;
    destruct (home q) as [q2 [[]|e]]; reflexivity.
Qed.

(** A request routed to [home] or [threshold] that carries no threshold
    shows the slider at the stored value. *)
Lemma request_without_threshold a q :
  threshold_invariant q ->
  args_threshold a = None ->
  recomputes a ->
  page (request a q) !! "threshold_card" = Some (form_card [slider (Some (5 # 10)%Q)]).
Proof.
  intros Hinv Ha Hr. unfold request. rewrite exec_serve. cbv zeta.
  set (qa := loaded (set_args a q)).
  assert (Hargs : args qa = a) by (unfold qa; rewrite loaded_args; reflexivity).
  assert (Hcl : client qa = client q) by (unfold qa; rewrite loaded_client; reflexivity).
  destruct (client_initialized (client qa)) eqn:Hci.
  - rewrite run_save_page by (rewrite Hargs; exact Hr).
    rewrite home_threshold_card. unfold current_threshold.
    rewrite Hargs, Ha, Hcl. rewrite Hcl in Hci. rewrite (Hinv Hci). reflexivity.
  - pose proof (init_threshold qa) as Hi. pose proof (init_args qa) as Hia.
    destruct (result init qa) as [[]|e].
    + rewrite run_save_page by (cbn [set_client_initialized modify exec fst set_client args];
                                rewrite Hia, Hargs; exact Hr).
      rewrite home_threshold_card. unfold current_threshold.
      cbn [set_client_initialized modify exec fst set_client args client client_threshold].
      fold (exec init qa). rewrite Hia, Hargs, Ha. rewrite Hi. reflexivity.
    + rewrite init_threshold_card, Hargs, Ha. reflexivity.
Qed.

End FrameworkFacts.

(** ** Ranking and threshold *)






(** C10 fails on the program: when the run of [home] inside [init] raises,
    the browser is not marked as initialised and the next request runs
    [init], and with it the assignment, again.  On a table where 0.5
    selects nothing, two requests assign the threshold twice. *)
Lemma C10_counterexample :
  result (serve low_scores example_matrix route_by_name not_subscriptable)
         (set_args home_event fresh) = Raise ValueError /\
  threshold_writes low_scores example_matrix route_by_name not_subscriptable
    [home_event; home_event] fresh = 2%nat.
Proof. split; vm_compute; reflexivity. Qed.

(** C10, amended.  The stored threshold is assigned by [init] only, always
    to 0.5, and no handler changes it: [serve] assigns it exactly at the
    requests that find the browser not initialised, which is once when the
    first run of [init] returns and once more for every run of [init] that
    raises; from the first request of a session on the stored threshold is
    0.5.  On tables within the row limit of the chart, a run of [home]
    works with the threshold of the request when it carries one and with
    the stored one otherwise, for the slider and for the statistics; hence
    a recompute request without a threshold shows the slider at 0.5 after
    any earlier requests. *)
Theorem C10_stored_threshold
    (static_predictions : list PredictionRecord) (static_shapley : AttributionMatrix)
    (run_on_target : Args -> option Handler)
    (subscript_set_items : string -> gmap string Card -> outcome (gmap string Card)) :
  let serve := serve static_predictions static_shapley run_on_target subscript_set_items in
  let request := request static_predictions static_shapley run_on_target subscript_set_items in
  let session := session static_predictions static_shapley run_on_target subscript_set_items in
  let writes :=
    threshold_writes static_predictions static_shapley run_on_target subscript_set_items in
  let loaded := loaded static_predictions static_shapley in
  (forall q, client_threshold (client (exec init q)) = Some (5 # 10)%Q) /\
  (forall h q,
      client_threshold (client (exec (run_handler subscript_set_items h) q))
      = client_threshold (client q)) /\
  (forall q,
      client_threshold (client (exec serve q))
      = if client_initialized (client q) then client_threshold (client q)
        else Some (5 # 10)%Q) /\
  (forall events q, client_initialized (client q) = true -> writes events q = 0%nat) /\
  (forall a events q,
      client_initialized (client q) = false ->
      chartable (app_predictions (app (loaded (set_args a q)))) ->
      result init (loaded (set_args a q)) = Ok tt ->
      writes (a :: events) q = 1%nat) /\
  (forall a events q e,
      client_initialized (client q) = false ->
      result init (loaded (set_args a q)) = Raise e ->
      client_initialized (client (request a q)) = false /\
      writes (a :: events) q = S (writes events (request a q))) /\
  client_threshold (client fresh) = None /\
  (forall events a,
      client_threshold (client (session (events ++ [a]) fresh)) = Some (5 # 10)%Q) /\
  (forall q,
      chartable (app_predictions (app q)) ->
      page (exec home q) !! "threshold_card"
      = Some (form_card [slider (match args_threshold (args q) with
                                 | Some t => Some t
                                 | None => client_threshold (client q)
                                 end)])) /\
  (forall q t s,
      chartable (app_predictions (app q)) ->
      current_threshold q = Some t ->
      stats (app_predictions (app q)) t = Ok s ->
      page (exec home q) !! "stats_card" = Some (form_card [stats_item s])) /\
  (forall events a,
      chartable static_predictions ->
      args_threshold a = None ->
      recomputes run_on_target a ->
      page (request a (session events fresh)) !! "threshold_card"
      = Some (form_card [slider (Some (5 # 10)%Q)])).
Proof.
  cbv zeta.
  split; [|split; [|split; [|split; [|split; [|split; [|split; [|split; [|split; [|split]]]]]]]]].
  - intros q. apply init_threshold.
  - intros h q. apply (frame_threshold _ _ (keeps_frame_run_handler _ h q)).
  - intros q. apply serve_threshold_exact.
  - intros events q. apply writes_initialized.
  - intros a events q Hq _. apply writes_first_returns, Hq.
  - intros a events q e. apply writes_first_raises.
  - reflexivity.
  - intros events a. apply session_threshold, fresh_invariant.
  - intros q _. apply home_threshold_card.
  - intros q t s _. apply home_stats_card.
  - intros events a _ Ha Hr. apply request_without_threshold; [|exact Ha|exact Hr].
    apply session_invariant, fresh_invariant.
Qed.

Lemma C10_stored_threshold_witness :
  let run := session example_predictions example_matrix route_by_name not_subscriptable in
  chartable example_predictions /\
  page (run [home_event; slider_event (2 # 10)] fresh) !! "threshold_card"
  = Some (form_card [slider (Some (2 # 10)%Q)]) /\
  args_threshold home_event = None /\
  recomputes route_by_name home_event /\
  page (request example_predictions example_matrix route_by_name not_subscriptable
          home_event (run [home_event; slider_event (2 # 10)] fresh))
    !! "threshold_card"
  = Some (form_card [slider (Some (5 # 10)%Q)]) /\
  threshold_writes example_predictions example_matrix route_by_name not_subscriptable
    [home_event; slider_event (2 # 10); home_event] fresh = 1%nat.
Proof.
  cbv zeta.
  assert (Ha : args_threshold home_event = None) by reflexivity.
  assert (Hr : recomputes route_by_name home_event) by (left; reflexivity).
  assert (Hi : result init (loaded example_predictions example_matrix
                              (set_args home_event fresh)) = Ok tt)
    by (vm_compute; reflexivity).
  assert (Hc : chartable example_predictions)
    by (unfold chartable, chart_row_limit; cbn; lia).
  pose proof (C10_stored_threshold example_predictions example_matrix route_by_name
                not_subscriptable) as H. cbv zeta in H.
  destruct H as (_ & _ & _ & _ & Hw & _ & _ & _ & _ & _ & Hlast).
  split; [exact Hc|].
  split; [vm_compute; reflexivity|]. split; [exact Ha|]. split; [exact Hr|].
  split.
  - exact (Hlast [home_event; slider_event (2 # 10)] home_event Hc Ha Hr).
  - exact (Hw home_event [slider_event (2 # 10); home_event] fresh eq_refl Hc Hi).
Defined.

(** * Further properties of the program *)

(** ** [add_card] and [clear_cards] *)

Lemma ignored_In ignore name : ignored ignore name = true <-> In name ignore.
Proof.
  unfold ignored. rewrite existsb_exists. split.
  - intros [x [Hx He]]. apply String.eqb_eq in He. subst. exact Hx.
  - intros H. exists name. split; [exact H | apply String.eqb_refl].
Qed.

Lemma foldr_drop_card_page ignore names q k :
  page (foldr (drop_card ignore) q names) !! k
  = if bool_decide (k ∈ names) && negb (ignored ignore k) then None else page q !! k.
Proof.
  induction names as [|n names IH]; cbn [foldr].
  - reflexivity.
  - unfold drop_card at 1. fold (ignored ignore n).
    destruct (ignored ignore n) eqn:En.
    + rewrite IH. destruct (decide (k = n)) as [->|Hne].
      * rewrite En. cbn. rewrite !andb_false_r. reflexivity.
      * rewrite (bool_decide_ext (k ∈ n :: names) (k ∈ names)); [reflexivity|].
        set_solver.
    + cbn [page set_page set_client]. destruct (decide (k = n)) as [->|Hne].
      * rewrite lookup_delete_eq, En.
        rewrite bool_decide_eq_true_2 by set_solver. reflexivity.
      * rewrite lookup_delete_ne by congruence. rewrite IH.
        rewrite (bool_decide_ext (k ∈ n :: names) (k ∈ names)); [reflexivity|].
        set_solver.
Qed.

Lemma foldr_drop_card_cards ignore names q k :
  k ∈ client_cards (client (foldr (drop_card ignore) q names)) <->
  k ∈ client_cards (client q) /\ (k ∈ names -> ignored ignore k = true).
Proof.
  induction names as [|n names IH]; cbn [foldr].
  - set_solver.
  - unfold drop_card at 1. fold (ignored ignore n).
    destruct (ignored ignore n) eqn:En.
    + rewrite IH. split; intros [H1 H2]; (split; [exact H1|]).
      * intros Hk. apply elem_of_cons in Hk. destruct Hk as [->|Hk]; auto.
      * intros Hk. apply H2. set_solver.
    + cbn [client set_page set_client client_cards].
      rewrite elem_of_difference, IH, elem_of_singleton. split.
      * intros [[H1 H2] Hne]. split; [exact H1|].
        intros Hk. apply elem_of_cons in Hk. destruct Hk as [->|Hk]; [congruence | auto].
      * intros [H1 H2]. split; [split; [exact H1|]|].
        -- intros Hk. apply H2. set_solver.
        -- intros ->. specialize (H2 ltac:(set_solver)). congruence.
Qed.

Lemma clear_cards_page ignore q k :
  page (exec (clear_cards ignore) q) !! k
  = if bool_decide (k ∈ client_cards (client q)) && negb (ignored ignore k)
    then None else page q !! k.
Proof.
  unfold clear_cards, modify, exec. cbn [fst]. unfold set_fold. cbn.
  rewrite foldr_drop_card_page.
  rewrite (bool_decide_ext _ (k ∈ client_cards (client q))); [reflexivity|].
  apply elem_of_elements.
Qed.

Lemma clear_cards_cards ignore q k :
  k ∈ client_cards (client (exec (clear_cards ignore) q)) <->
  k ∈ client_cards (client q) /\ ignored ignore k = true.
Proof.
  unfold clear_cards, modify, exec. cbn [fst]. unfold set_fold. cbn.
  rewrite foldr_drop_card_cards. split.
  - intros [H1 H2]. split; [exact H1|]. apply H2, elem_of_elements, H1.
  - intros [H1 H2]. split; [exact H1 | intros _; exact H2].
Qed.

(** X1.  [clear_cards] takes every tracked card off the page and out of
    the tracked names, except the names to be ignored; a card whose name is
    not tracked, or is ignored, stays as it is. *)
Theorem clear_cards_effect (ignore : list string) (q : Query) (k : string) :
  let q' := exec (clear_cards ignore) q in
  (k ∈ client_cards (client q) -> ~ In k ignore -> page q' !! k = None) /\
  (k ∉ client_cards (client q) \/ In k ignore -> page q' !! k = page q !! k) /\
  (k ∈ client_cards (client q') <-> k ∈ client_cards (client q) /\ In k ignore).
Proof.
  cbv zeta. split; [|split].
  - intros Hk Hi. rewrite clear_cards_page.
    rewrite bool_decide_eq_true_2 by exact Hk.
    destruct (ignored ignore k) eqn:E; [apply ignored_In in E; contradiction | reflexivity].
  - intros H. rewrite clear_cards_page. destruct H as [H|H].
    + rewrite bool_decide_eq_false_2 by exact H. reflexivity.
    + apply ignored_In in H. rewrite H, andb_false_r. reflexivity.
  - rewrite clear_cards_cards, ignored_In. reflexivity.
Qed.

(** ** Rows of the employee table *)

Lemma lookup_field_spec c fs :
  (existsb (fun kv => String.eqb (fst kv) c) fs = true -> exists v, lookup_field c fs = Ok v) /\
  (existsb (fun kv => String.eqb (fst kv) c) fs = false -> lookup_field c fs = Raise KeyError).
Proof.
  induction fs as [|[k v] fs [IH1 IH2]]; cbn [existsb lookup_field fst].
  - split; [discriminate | reflexivity].
  - destruct (String.eqb k c); cbn [orb].
    + split; [eauto | discriminate].
    + split; assumption.
Qed.

Lemma row_get_spec r c :
  (has_column r c = true -> exists v, row_get r c = Ok v) /\
  (has_column r c = false -> row_get r c = Raise KeyError).
Proof.
  unfold has_column, row_get.
  destruct (String.eqb c "EmployeeNumber"); cbn [orb]; [split; [eauto | discriminate]|].
  destruct (String.eqb c "YearsAtCompany"); cbn [orb]; [split; [eauto | discriminate]|].
  destruct (String.eqb c "Prediction"); cbn [orb]; [split; [eauto | discriminate]|].
  apply lookup_field_spec.
Qed.

Lemma traverse_Ok {A B} (f : A -> outcome B) l :
  (forall a, In a l -> exists b, f a = Ok b) ->
  exists bs, traverse f l = Ok bs /\ List.length bs = List.length l.
Proof.
  induction l as [|a l IH]; intros H; cbn [traverse].
  - exists []. split; reflexivity.
  - destruct (H a (or_introl eq_refl)) as [b Hb]. rewrite Hb. cbn [bind].
    destruct IH as [bs [Hbs Hlen]]; [intros x Hx; apply H; right; exact Hx|].
    rewrite Hbs. cbn [bind]. exists (b :: bs). split; [reflexivity|].
    cbn [List.length]. rewrite Hlen. reflexivity.
Qed.

Lemma traverse_Ok_inv {A B} (f : A -> outcome B) l bs :
  traverse f l = Ok bs -> Forall2 (fun a b => f a = Ok b) l bs.
Proof.
  revert bs. induction l as [|a l IH]; intros bs H; cbn [traverse] in H.
  - injection H as <-. constructor.
  - destruct (f a) as [b|e] eqn:Ea; cbn [bind] in H; [|discriminate].
    destruct (traverse f l) as [bs'|e] eqn:El; cbn [bind] in H; [|discriminate].
    injection H as <-. constructor; [exact Ea | apply IH; reflexivity].
Qed.

Lemma traverse_Raise {A B} (f : A -> outcome B) l e :
  traverse f l = Raise e -> exists a, In a l /\ f a = Raise e.
Proof.
  induction l as [|a l IH]; intros H; cbn [traverse] in H; [discriminate|].
  destruct (f a) as [b|e'] eqn:Ea; cbn [bind] in H.
  - destruct (traverse f l) as [bs'|e''] eqn:El; cbn [bind] in H; [discriminate|].
    injection H as ->. destruct (IH eq_refl) as [x [Hx Hfx]].
    exists x. split; [right; exact Hx | exact Hfx].
  - injection H as ->. exists a. split; [left; reflexivity | exact Ea].
Qed.

Lemma table_row_Ok cols r :
  (forall c, In c cols -> has_column r c = true) ->
  exists cells, table_row cols r = Ok (EmployeeNumber r, cells) /\
                List.length cells = List.length cols.
Proof.
  intros H. unfold table_row.
  destruct (traverse_Ok (row_get r) cols) as [cells [Hc Hlen]].
  { intros c Hc. apply (proj1 (row_get_spec r c)), H, Hc. }
  rewrite Hc. cbn [bind]. eauto.
Qed.

Lemma table_row_Raise cols r e :
  table_row cols r = Raise e ->
  e = KeyError /\ exists c, In c cols /\ has_column r c = false.
Proof.
  unfold table_row. intros H.
  destruct (traverse (row_get r) cols) as [cells|e'] eqn:E; cbn [bind] in H; [discriminate|].
  injection H as ->. apply traverse_Raise in E. destruct E as [c [Hc Hr]].
  destruct (has_column r c) eqn:Hh.
  - destruct (proj1 (row_get_spec r c) Hh) as [v Hv]. congruence.
  - pose proof (proj2 (row_get_spec r c) Hh) as Hk.
    split; [congruence | eauto].
Qed.

Lemma table_row_Ok_inv cols r row :
  table_row cols r = Ok row ->
  fst row = EmployeeNumber r /\ List.length (snd row) = List.length cols.
Proof.
  unfold table_row. intros H.
  destruct (traverse (row_get r) cols) as [cells|e] eqn:E; cbn [bind] in H; [|discriminate].
  injection H as <-. cbn [fst snd]. split; [reflexivity|].
  apply traverse_Ok_inv in E. apply List.Forall2_length in E. symmetry. exact E.
Qed.

Lemma traverse_table_rows cols rs rows :
  traverse (table_row cols) rs = Ok rows ->
  List.map fst rows = List.map EmployeeNumber rs /\
  Forall (fun row => List.length (snd row) = List.length cols) rows.
Proof.
  intros H. apply traverse_Ok_inv in H.
  induction H as [|r row rs' rows' Hrow _ [IH1 IH2]]; [split; constructor|].
  apply table_row_Ok_inv in Hrow. destruct Hrow as [Hid Hlen].
  cbn [List.map]. split; [rewrite Hid, IH1; reflexivity | constructor; assumption].
Qed.

Lemma has_column_dec_rows cols rows :
  (forall r c, In r rows -> In c cols -> has_column r c = true) \/
  (exists r c, In r rows /\ In c cols /\ has_column r c = false).
Proof.
  destruct (forallb (fun r => forallb (has_column r) cols) rows) eqn:E.
  - left. intros r c Hr Hc. rewrite forallb_forall in E.
    specialize (E r Hr). rewrite forallb_forall in E. apply E, Hc.
  - right. induction rows as [|r rows IH]; [discriminate|].
    cbn [forallb] in E. apply andb_false_iff in E. destruct E as [E|E].
    + assert (Hc : exists c, In c cols /\ has_column r c = false).
      { clear IH. induction cols as [|c cols IHc]; [discriminate|].
        cbn [forallb] in E. apply andb_false_iff in E. destruct E as [E|E].
        - exists c. split; [left; reflexivity | exact E].
        - destruct (IHc E) as [c' [Hc' Hh]]. exists c'. split; [right|]; assumption. }
      destruct Hc as [c [Hc Hh]]. exists r, c. split; [left; reflexivity | split; assumption].
    + destruct (IH E) as [r' [c [Hr' H]]]. exists r', c. split; [right; exact Hr' | exact H].
Qed.

Lemma table_rows_Ok cols rows :
  (forall r c, In r rows -> In c cols -> has_column r c = true) ->
  exists out, traverse (table_row cols) rows = Ok out.
Proof.
  intros H.
  destruct (traverse_Ok (table_row cols) rows) as [out [Hout _]]; [|eauto].
  intros r Hr. destruct (table_row_Ok cols r) as [cells [Hc _]]; [|eauto].
  intros c Hc. apply H; assumption.
Qed.

Lemma table_rows_Ok_inv cols rows out :
  traverse (table_row cols) rows = Ok out ->
  forall r c, In r rows -> In c cols -> has_column r c = true.
Proof.
  intros E r c Hr Hc. apply traverse_Ok_inv in E.
  assert (Hrow : exists row, table_row cols r = Ok row).
  { induction E as [|x row rows' out' Hx _ IH]; [destruct Hr|].
    destruct Hr as [<-|Hr]; [eauto | apply IH, Hr]. }
  destruct Hrow as [row Hrow]. unfold table_row in Hrow.
  destruct (traverse (row_get r) cols) as [cells|e] eqn:Et; [|discriminate].
  apply traverse_Ok_inv in Et. clear Hrow E.
  assert (Hv : exists v, row_get r c = Ok v).
  { induction Et as [|x v cols' cells' Hx _ IH]; [destruct Hc|].
    destruct Hc as [<-|Hc]; [eauto | apply IH, Hc]. }
  destruct Hv as [v Hv]. destruct (has_column r c) eqn:Hh; [reflexivity|].
  rewrite (proj2 (row_get_spec r c) Hh) in Hv. discriminate.
Qed.

Lemma table_rows_Raise cols rows e :
  traverse (table_row cols) rows = Raise e ->
  e = KeyError /\ exists r c, In r rows /\ In c cols /\ has_column r c = false.
Proof.
  intros H. apply traverse_Raise in H. destruct H as [r [Hr H]].
  apply table_row_Raise in H. destruct H as [-> [c [Hc Hh]]].
  split; [reflexivity|]. exists r, c. auto.
Qed.

(** X3. The rows of the table are computed exactly when every selected row
    has every column asked for; they are then one row per selected row, in
    order, under the employee's number and with a cell per column. The only
    exception of the computation is [KeyError]. *)
Theorem table_rows_missing_column (cols : list string) (rows : list PredictionRecord) :
  ((exists out, traverse (table_row cols) rows = Ok out) <->
   (forall r c, In r rows -> In c cols -> has_column r c = true)) /\
  (forall out, traverse (table_row cols) rows = Ok out ->
     List.map fst out = List.map EmployeeNumber rows /\
     Forall (fun row => List.length (snd row) = List.length cols) out) /\
  (forall e, traverse (table_row cols) rows = Raise e -> e = KeyError).
Proof.
  split; [|split].
  - split; [|apply table_rows_Ok].
    intros [out Hout]. exact (table_rows_Ok_inv cols rows out Hout).
  - intros out Hout. apply traverse_table_rows, Hout.
  - intros e He. apply table_rows_Raise in He. apply He.
Qed.

(** ** Outcome of [home] *)

Lemma home_result q :
  result home q =
  match stats_of (selected q) (app_predictions (app q)) with
  | Raise e => Raise e
  | Ok _ =>
      match traverse (table_row (table_columns (ranking q))) (selected q) with
      | Raise e => Raise e
      | Ok _ => Ok tt
      end
  end.
Proof.
  unfold result. rewrite home_unfold. cbv zeta. fold (selected q).
  destruct (stats_of _ _) as [s|e]; [|reflexivity].
  unfold table_columns, ranking.
  destruct (traverse _ _) as [rows|e]; reflexivity.
Qed.

Lemma stats_of_cases churned p :
  (p = [] /\ stats_of churned p = Raise ZeroDivisionError) \/
  (p <> [] /\ churned = [] /\ stats_of churned p = Raise ValueError) \/
  (p <> [] /\ churned <> [] /\ exists s, stats_of churned p = Ok s).
Proof.
  destruct p as [|r p]; [left; split; reflexivity|]. right.
  destruct churned as [|c l].
  - left. split; [discriminate|]. split; reflexivity.
  - right. split; [discriminate|]. split; [discriminate|].
    unfold stats_of, stat_fraction. cbn [List.length truediv bind].
    rewrite stat_tenure_cons. cbn [bind]. eauto.
Qed.

Lemma stats_cases p t :
  (p = [] /\ stats p t = Raise ZeroDivisionError) \/
  (p <> [] /\ churned_employees p t = [] /\ stats p t = Raise ValueError) \/
  (p <> [] /\ churned_employees p t <> [] /\ exists s, stats p t = Ok s).
Proof. apply (stats_of_cases (churned_employees p t) p). Qed.

Lemma selected_Some q :
  selected q <> [] <->
  exists t, current_threshold q = Some t /\
            churned_employees (app_predictions (app q)) t <> [].
Proof.
  unfold selected, selection. destruct (current_threshold q) as [t|].
  - split; [intros H; exists t; split; [reflexivity | exact H]|].
    intros (t' & [= <-] & H). exact H.
  - split; [intros H; exfalso; apply H; reflexivity|].
    intros (t' & Ht & _). discriminate Ht.
Qed.

Lemma selected_table q : selected q <> [] -> app_predictions (app q) <> [].
Proof.
  intros H Hp. apply H. unfold selected, selection. rewrite Hp.
  destruct (current_threshold q); reflexivity.
Qed.

Lemma table_columns_In varimp c :
  In c (table_columns varimp) <->
  c = "EmployeeNumber" \/ In c (List.map fst varimp) \/ c = "Prediction".
Proof.
  unfold table_columns. cbn [In]. rewrite in_app_iff. cbn [In].
  split; intros H; intuition congruence.
Qed.

Lemma has_column_fixed r c :
  c = "EmployeeNumber" \/ c = "Prediction" -> has_column r c = true.
Proof. intros [-> | ->]; reflexivity. Qed.

(** The four ways a run of [home] can end. *)
Lemma home_cases q :
  (app_predictions (app q) = [] /\ result home q = Raise ZeroDivisionError) \/
  (app_predictions (app q) <> [] /\ selected q = [] /\
   result home q = Raise ValueError) \/
  (selected q <> [] /\ missing_column q /\ result home q = Raise KeyError) \/
  (selected q <> [] /\ ~ missing_column q /\ result home q = Ok tt).
Proof.
  rewrite home_result.
  destruct (stats_of_cases (selected q) (app_predictions (app q)))
    as [[Hp Hs] | [(Hp & Hc & Hs) | (Hp & Hc & s & Hs)]];
    rewrite Hs.
  - left. split; [exact Hp | reflexivity].
  - right. left. split; [exact Hp|]. split; [exact Hc | reflexivity].
  - right. right.
    destruct (traverse (table_row (table_columns (ranking q))) (selected q))
      as [out|e] eqn:Et.
    + right. split; [exact Hc|]. split; [|reflexivity].
      intros (r & name & Hr & Hn & Hh).
      rewrite (table_rows_Ok_inv _ _ _ Et r name Hr) in Hh; [discriminate|].
      apply table_columns_In. right. left. exact Hn.
    + left. apply table_rows_Raise in Et. destruct Et as (-> & r & c & Hr & Hcin & Hh).
      split; [exact Hc|]. split; [|reflexivity].
      apply table_columns_In in Hcin.
      destruct Hcin as [Hcin | [Hcin | Hcin]].
      * rewrite has_column_fixed in Hh by (left; exact Hcin). discriminate.
      * exists r, c. split; [exact Hr|]. split; assumption.
      * rewrite has_column_fixed in Hh by (right; exact Hcin). discriminate.
Qed.

Lemma missing_column_selected q : missing_column q -> selected q <> [].
Proof. intros (r & name & Hr & _) Hc. rewrite Hc in Hr. destruct Hr. Qed.

Lemma no_missing_column q :
  ~ missing_column q <->
  forall r name,
    In r (selected q) -> In name (List.map fst (ranking q)) -> has_column r name = true.
Proof.
  split.
  - intros Hm r name Hr Hn. destruct (has_column r name) eqn:Hh; [reflexivity|].
    exfalso. apply Hm. exists r, name. auto.
  - intros Hall (r & name & Hr & Hn & Hh). rewrite (Hall r name Hr Hn) in Hh. discriminate.
Qed.

Lemma home_Ok_inv q :
  result home q = Ok tt -> selected q <> [] /\ ~ missing_column q.
Proof.
  intros Hok.
  destruct (home_cases q) as [[_ H] | [(_ & _ & H) | [(_ & _ & H) | (Hc & Hm & _)]]];
    try congruence.
  split; assumption.
Qed.

Lemma home_Ok_intro q :
  selected q <> [] -> ~ missing_column q -> result home q = Ok tt.
Proof.
  intros Hc Hm.
  destruct (home_cases q) as [[Hp _] | [(_ & Hc' & _) | [(_ & Hm' & _) | (_ & _ & H)]]].
  - exfalso. exact (selected_table q Hc Hp).
  - contradiction.
  - contradiction.
  - exact H.
Qed.

(** X4. For a table within the limit of the chart, a run of [home] returns
    exactly when it has a threshold (of the request or stored), some row is
    selected, and every selected row has the columns named by the ranking. *)
Theorem home_returns_iff (q : Query) :
  chartable (app_predictions (app q)) ->
  result home q = Ok tt <->
  exists t, current_threshold q = Some t /\
    churned_employees (app_predictions (app q)) t <> [] /\
    forall r name,
      In r (churned_employees (app_predictions (app q)) t) ->
      In name (List.map fst (ranking q)) ->
      has_column r name = true.
Proof.
  intros _. split.
  - intros Hok. destruct (home_Ok_inv q Hok) as [Hc Hm].
    pose proof (proj1 (no_missing_column q) Hm) as Hall.
    apply selected_Some in Hc. destruct Hc as (t & Ht & Hc).
    exists t. split; [exact Ht|]. split; [exact Hc|].
    unfold selected in Hall. rewrite Ht in Hall. exact Hall.
  - intros (t & Ht & Hc & Hall). apply home_Ok_intro.
    + apply selected_Some. exists t. split; assumption.
    + apply no_missing_column. unfold selected. rewrite Ht. exact Hall.
Qed.

(** X5. The exceptions of a run of [home] on a table within the limit of the
    chart: [ZeroDivisionError] exactly when the table has no rows,
    [ValueError] exactly when the table has rows and none is selected,
    [KeyError] exactly when a selected row lacks a column named by the
    ranking, and no other. Without a threshold, of the request or stored, no
    row is selected. *)
Theorem home_raises (q : Query) :
  chartable (app_predictions (app q)) ->
  (result home q = Raise ZeroDivisionError <-> app_predictions (app q) = []) /\
  (result home q = Raise ValueError <->
   app_predictions (app q) <> [] /\ selected q = []) /\
  (result home q = Raise KeyError <-> missing_column q) /\
  (forall e, result home q = Raise e ->
             e = ZeroDivisionError \/ e = ValueError \/ e = KeyError) /\
  (current_threshold q = None -> selected q = []).
Proof.
  intros _.
  pose proof (missing_column_selected q) as Hsel.
  pose proof (selected_table q) as Htab.
  assert (Hnone : current_threshold q = None -> selected q = [])
    by (intros H; unfold selected; rewrite H; reflexivity).
  destruct (home_cases q) as [[Hp H] | [(Hp & Hc & H) | [(Hc & Hm & H) | (Hc & Hm & H)]]];
    rewrite H; repeat apply conj; intros;
    repeat match goal with
    | Hx : _ /\ _ |- _ => destruct Hx
    | Hx : Raise _ = Raise _ |- _ => injection Hx as <-
    end;
    try discriminate; try tauto; try (exfalso; auto; fail).
Qed.

(** ** Cards of a run of [home] *)

Lemma cleared_page q k :
  page (exec (clear_cards []) q) !! k
  = if bool_decide (k ∈ client_cards (client q)) then None else page q !! k.
Proof.
  unfold clear_cards, modify, exec. cbn [fst]. unfold set_fold. cbn.
  rewrite foldr_drop_card_page. cbn [ignored existsb negb]. rewrite andb_true_r.
  rewrite (bool_decide_ext _ (k ∈ client_cards (client q))); [reflexivity|].
  apply elem_of_elements.
Qed.

Lemma cleared_cards q : client_cards (client (exec (clear_cards []) q)) = ∅.
Proof.
  apply set_eq. intros k. unfold clear_cards, modify, exec. cbn [fst].
  unfold set_fold. cbn. rewrite foldr_drop_card_cards. cbn [ignored existsb].
  split.
  - intros [H1 H2]. specialize (H2 (proj2 (elem_of_elements _ _) H1)). discriminate.
  - intros H. exfalso. exact (not_elem_of_empty _ H).
Qed.

Lemma rendered_page q k :
  page (rendered q) !! k =
  if bool_decide (k ∈ slider_cards) then
    <["threshold_card" := form_card [slider (current_threshold q)]]>
      (<["description_card" := form_card
           [text "Use the slider below to change the cutoff for churn prediction and update the statistics."]]>
         (<["varimp_card" := plot_card (ranking q)]>
            (<["predictions_card" := vega_card (app_predictions (app q))]>
               (∅ : gmap string Card)))) !! k
  else if bool_decide (k ∈ client_cards (client q)) then None else page q !! k.
Proof.
  pose proof (keeps_frame_clear_cards [] q) as Hf.
  unfold rendered, ranking. cbv zeta.
  rewrite (frame_app _ _ Hf), (current_threshold_frame _ _ Hf).
  unfold exec at 1, bindM. cbn [add_card modify fst snd page set_page set_client].
  destruct (bool_decide_reflect (k ∈ slider_cards)) as [Hin | Hout].
  - unfold slider_cards in Hin.
    repeat (apply elem_of_union in Hin; destruct Hin as [Hin | Hin]);
      apply elem_of_singleton in Hin; subst k;
      repeat first [ rewrite lookup_insert_eq; reflexivity
                   | rewrite lookup_insert_ne by discriminate ].
  - assert (H1 : k <> "threshold_card") by (intros ->; apply Hout; unfold slider_cards; set_solver).
    assert (H2 : k <> "description_card") by (intros ->; apply Hout; unfold slider_cards; set_solver).
    assert (H3 : k <> "varimp_card") by (intros ->; apply Hout; unfold slider_cards; set_solver).
    assert (H4 : k <> "predictions_card") by (intros ->; apply Hout; unfold slider_cards; set_solver).
    rewrite !lookup_insert_ne by congruence.
    apply cleared_page.
Qed.

Lemma rendered_cards q : client_cards (client (rendered q)) = slider_cards.
Proof.
  unfold rendered. cbv zeta.
  unfold exec at 1, bindM. cbn [add_card modify fst snd client client_cards set_page set_client].
  rewrite cleared_cards. unfold slider_cards. set_solver.
Qed.

(** How far a run of [home] gets, with the page and the tracked names it
    leaves. *)
Lemma home_state q :
  (result home q <> Ok tt /\
   page (exec home q) = page (rendered q) /\
   client_cards (client (exec home q)) = slider_cards) \/
  (exists s, result home q = Raise KeyError /\
   page (exec home q) = <["stats_card" := form_card [stats_item s]]> (page (rendered q)) /\
   client_cards (client (exec home q)) = {["stats_card"]} ∪ slider_cards) \/
  (exists s cols rows, result home q = Ok tt /\
   page (exec home q)
   = <["table_card" := form_card [table cols rows]]>
       (<["stats_card" := form_card [stats_item s]]> (page (rendered q))) /\
   client_cards (client (exec home q)) = home_cards).
Proof.
  pose proof (rendered_cards q) as Hc.
  unfold exec, result. rewrite home_unfold. cbv zeta.
  destruct (stats_of _ _) as [s|e];
    [|left; cbn [fst snd]; split; [discriminate | split; [reflexivity | exact Hc]]].
  destruct (traverse _ _) as [rows|e] eqn:Et; cbn [fst snd]; right.
  - right. eexists s, _, rows. split; [reflexivity|]. split; [reflexivity|].
    unfold exec. cbn [add_card modify fst client client_cards set_page set_client].
    rewrite Hc. unfold home_cards, slider_cards. set_solver.
  - left. exists s.
    assert (He : e = KeyError).
    { apply traverse_Raise in Et. destruct Et as [r [_ Hr]].
      apply table_row_Raise in Hr. apply Hr. }
    subst e. split; [reflexivity|]. split; [reflexivity|].
    unfold exec. cbn [add_card modify fst client client_cards set_page set_client].
    rewrite Hc. reflexivity.
Qed.


Lemma rendered_page_tracked q k :
  k ∈ slider_cards -> is_Some (page (rendered q) !! k).
Proof.
  intros Hin. rewrite rendered_page. rewrite bool_decide_eq_true_2 by exact Hin.
  unfold slider_cards in Hin.
  repeat (apply elem_of_union in Hin; destruct Hin as [Hin | Hin]);
    apply elem_of_singleton in Hin; subst k;
    repeat first [ rewrite lookup_insert_eq; eexists; reflexivity
                 | rewrite lookup_insert_ne by discriminate ].
Qed.

Lemma rendered_page_untracked q k :
  k ∉ slider_cards ->
  page (rendered q) !! k
  = if bool_decide (k ∈ client_cards (client q)) then None else page q !! k.
Proof.
  intros Hout. rewrite rendered_page. rewrite bool_decide_eq_false_2 by exact Hout.
  reflexivity.
Qed.

(** X6. When the prediction table is within the chart's row limit, after a
    run of [home] the tracked names are the names of the cards the run
    added: the four up to the slider at least, all six exactly when the run
    returns, and each of them is on the page. *)
Theorem home_tracked_cards (q : Query) :
  chartable (app_predictions (app q)) ->
  slider_cards ⊆ client_cards (client (exec home q)) /\
  client_cards (client (exec home q)) ⊆ home_cards /\
  (result home q = Ok tt <-> client_cards (client (exec home q)) = home_cards) /\
  (forall k, k ∈ client_cards (client (exec home q)) ->
             is_Some (page (exec home q) !! k)).
Proof.
  intros _.
  destruct (home_state q) as [(Hr & Hp & Hc) | [(s & Hr & Hp & Hc) | (s & cols & rows & Hr & Hp & Hc)]];
    rewrite Hp, Hc.
  - split; [set_solver|]. split; [unfold home_cards; set_solver|]. split.
    + split; [intros H; contradiction|].
      intros H. exfalso.
      assert (Ht : "table_card" ∈ slider_cards) by (rewrite H; unfold home_cards; set_solver).
      unfold slider_cards in Ht. set_solver.
    + intros k Hk. apply rendered_page_tracked, Hk.
  - split; [set_solver|]. split; [unfold home_cards; set_solver|]. split.
    + split; [intros H; congruence|].
      intros H. exfalso.
      assert (Ht : "table_card" ∈ ({["stats_card"]} ∪ slider_cards : gset string))
        by (rewrite H; unfold home_cards; set_solver).
      unfold slider_cards in Ht. set_solver.
    + intros k Hk. apply elem_of_union in Hk. destruct Hk as [Hk | Hk].
      * apply elem_of_singleton in Hk. subst k. rewrite lookup_insert_eq. eauto.
      * destruct (decide (k = "stats_card")) as [->|Hne];
          [rewrite lookup_insert_eq; eauto|].
        rewrite lookup_insert_ne by congruence. apply rendered_page_tracked, Hk.
  - split; [unfold home_cards; set_solver|]. split; [set_solver|]. split.
    + split; [reflexivity | intros _; exact Hr].
    + intros k Hk.
      destruct (decide (k = "table_card")) as [->|H1]; [rewrite lookup_insert_eq; eauto|].
      rewrite lookup_insert_ne by congruence.
      destruct (decide (k = "stats_card")) as [->|H2]; [rewrite lookup_insert_eq; eauto|].
      rewrite lookup_insert_ne by congruence.
      apply rendered_page_tracked. unfold home_cards in Hk. set_solver.
Qed.

(** X7. A name that is not tracked after a run of [home] is off the page if
    it was tracked before the run, and has the card it had otherwise. *)
Theorem home_untracked (q : Query) (k : string) :
  k ∉ client_cards (client (exec home q)) ->
  page (exec home q) !! k
  = if bool_decide (k ∈ client_cards (client q)) then None else page q !! k.
Proof.
  destruct (home_state q) as [(Hr & Hp & Hc) | [(s & Hr & Hp & Hc) | (s & cols & rows & Hr & Hp & Hc)]];
    rewrite Hp, Hc; intros Hk.
  - apply rendered_page_untracked, Hk.
  - rewrite lookup_insert_ne by (intros <-; set_solver).
    apply rendered_page_untracked. set_solver.
  - unfold home_cards in Hk.
    rewrite lookup_insert_ne by (intros <-; set_solver).
    rewrite lookup_insert_ne by (intros <-; set_solver).
    apply rendered_page_untracked. set_solver.
Qed.

Lemma home_untracked_witness :
  ("stats_card" ∉ client_cards
                   (client (exec home (served example_matrix (slider_event (9 # 10)))))) /\
  page (exec home (served example_matrix (slider_event (9 # 10)))) !! "stats_card" = None.
Proof.
  assert (H : "stats_card" ∉ client_cards
                (client (exec home (served example_matrix (slider_event (9 # 10)))))).
  { vm_compute. intros H. discriminate H. }
  split; [exact H|].
  exact (home_untracked (served example_matrix (slider_event (9 # 10))) "stats_card" H).
Defined.


(** ** The application tables over a session *)

Section RequestFacts.

Variable static_predictions : list PredictionRecord.
Variable static_shapley : AttributionMatrix.
Variable run_on_target : Args -> option Handler.
Variable subscript_set_items : string -> gmap string Card -> outcome (gmap string Card).

Local Abbreviation render_employee := (render_employee subscript_set_items).
Local Abbreviation run_handler := (run_handler subscript_set_items).
Local Abbreviation run_on := (run_on run_on_target subscript_set_items).
Local Abbreviation serve :=
  (serve static_predictions static_shapley run_on_target subscript_set_items).
Local Abbreviation request :=
  (request static_predictions static_shapley run_on_target subscript_set_items).
Local Abbreviation session :=
  (session static_predictions static_shapley run_on_target subscript_set_items).
Local Abbreviation loaded := (loaded static_predictions static_shapley).
Local Abbreviation static_app := (static_app static_predictions static_shapley).

Lemma init_frame_app q : app (exec init q) = app q.
Proof.
  unfold init. rewrite !exec_bindM. cbn [result modify snd].
  rewrite (frame_app _ _ (keeps_frame_home _)). reflexivity.
Qed.

Lemma loaded_app q :
  app (loaded q) = if app_initialized (app q) then app q else static_app.
Proof. unfold loaded. destruct (app_initialized (app q)); reflexivity. Qed.

Lemma serve_app q : app (exec serve q) = app (loaded q).
Proof.
  rewrite exec_serve. cbv zeta.
  destruct (client_initialized (client (loaded q))).
  - apply (frame_app _ _ (keeps_frame_run_save _ _ _)).
  - destruct (result init (loaded q)) as [[]|e].
    + rewrite (frame_app _ _ (keeps_frame_run_save _ _ _)).
      cbn [set_client_initialized modify exec fst set_client app].
      fold (exec init (loaded q)). apply init_frame_app.
    + apply init_frame_app.
Qed.

Lemma serve_app_initialized q :
  app_initialized (app q) = true -> app (exec serve q) = app q.
Proof. intros H. rewrite serve_app, loaded_app, H. reflexivity. Qed.

Lemma serve_app_load q :
  app_initialized (app q) = false -> app (exec serve q) = static_app.
Proof. intros H. rewrite serve_app, loaded_app, H. reflexivity. Qed.

Lemma request_app a q :
  (app_initialized (app q) = true -> app q = static_app) ->
  app (request a q) = static_app.
Proof.
  intros Hq. unfold request.
  destruct (app_initialized (app q)) eqn:E.
  - rewrite serve_app_initialized by exact E. apply Hq. reflexivity.
  - apply serve_app_load. exact E.
Qed.

Lemma session_app_from events q :
  (app_initialized (app q) = true -> app q = static_app) ->
  app_initialized (app (session events q)) = true ->
  app (session events q) = static_app.
Proof.
  revert q. induction events as [|a events IH]; intros q Hq; [exact Hq|].
  cbn [session fold_left]. apply IH. intros _. apply request_app, Hq.
Qed.

Lemma session_app events :
  app_initialized (app (session events fresh)) = true ->
  app (session events fresh) = static_app.
Proof. apply session_app_from. discriminate. Qed.

(** X10. [serve] reads the two files when the application is not
    initialised, and leaves the tables alone when it is; from the first
    request of a session on they are the tables of the files. *)
Theorem serve_tables :
  (forall q, app_initialized (app q) = true -> app (exec serve q) = app q) /\
  (forall q, app_initialized (app q) = false -> app (exec serve q) = static_app) /\
  (forall events a, app (session (events ++ [a]) fresh) = static_app).
Proof.
  split; [exact serve_app_initialized|]. split; [exact serve_app_load|].
  intros events a. unfold session. rewrite fold_left_app. cbn [fold_left].
  fold (session events fresh). apply request_app, session_app.
Qed.

(** ** The first request of a browser, and slider events *)

Lemma init_as_home q :
  exists qp,
    init q = home qp /\ app qp = app q /\ args qp = args q /\
    client_threshold (client qp) = Some (5 # 10)%Q /\
    client_initialized (client qp) = client_initialized (client q).
Proof.
  eexists. split.
  - unfold init, bindM at 1 2 3 4 5. cbn [modify]. reflexivity.
  - repeat split.
Qed.

Lemma current_threshold_first qp a :
  args qp = a -> client_threshold (client qp) = Some (5 # 10)%Q ->
  current_threshold qp = Some (first_threshold a).
Proof.
  intros <- Ht. unfold current_threshold, first_threshold. rewrite Ht.
  destruct (args_threshold (args qp)); reflexivity.
Qed.

(** X11. For tables within the limit of the chart, a browser is marked as
    initialised by its first request exactly when the run of [home] inside
    [init] returns: some score exceeds the threshold of the request (0.5
    without one) and the selected rows have the columns named by the
    ranking. Otherwise the next request runs [init] again. *)
Theorem serve_marks_client (q : Query) :
  client_initialized (client q) = false ->
  chartable (app_predictions (app (loaded q))) ->
  let tables := app (loaded q) in
  let t := first_threshold (args q) in
  client_initialized (client (exec serve q)) = true <->
  churned_employees (app_predictions tables) t <> [] /\
  forall r name,
    In r (churned_employees (app_predictions tables) t) ->
    In name (List.map fst (get_varimp (app_shapley tables) default_top_n)) ->
    has_column r name = true.
Proof.
  intros Hci _. cbv zeta. rewrite exec_serve. cbv zeta.
  rewrite loaded_client, Hci.
  destruct (init_as_home (loaded q)) as (qp & Hinit & Happ & Hargs & Hthr & Hflag).
  rewrite loaded_args in Hargs. rewrite loaded_client, Hci in Hflag.
  pose proof (current_threshold_first qp (args q) Hargs Hthr) as Hct.
  assert (Hres : result init (loaded q) = result home qp)
    by (unfold result; rewrite Hinit; reflexivity).
  assert (Hexec : exec init (loaded q) = exec home qp)
    by (unfold exec; rewrite Hinit; reflexivity).
  assert (Hsel : selected qp
                 = churned_employees (app_predictions (app (loaded q)))
                     (first_threshold (args q)))
    by (unfold selected; rewrite Hct, Happ; reflexivity).
  assert (Hcols : ~ missing_column qp <->
                  forall r name,
                    In r (churned_employees (app_predictions (app (loaded q)))
                            (first_threshold (args q))) ->
                    In name (List.map fst (get_varimp (app_shapley (app (loaded q)))
                                             default_top_n)) ->
                    has_column r name = true).
  { rewrite no_missing_column, Hsel. unfold ranking. rewrite Happ. reflexivity. }
  rewrite Hres. destruct (result home qp) as [[]|e] eqn:Er.
  - rewrite (frame_initialized _ _ (keeps_frame_run_save _ _ _)).
    cbn [set_client_initialized modify exec fst set_client client client_initialized].
    split; [intros _ | reflexivity].
    destruct (home_Ok_inv qp Er) as (Hc & Hm).
    rewrite Hsel in Hc. split; [exact Hc | apply Hcols, Hm].
  - rewrite Hexec, (frame_initialized _ _ (keeps_frame_home _)), Hflag.
    split; [discriminate|]. intros [Hc Hall]. exfalso.
    assert (Hok : result home qp = Ok tt); [|congruence].
    apply (home_Ok_intro qp); [rewrite Hsel; exact Hc | apply Hcols, Hall].
Qed.



End RequestFacts.


(** ** [round] and the average tenure *)

Lemma round_half_even_cases q :
  let f := Qfloor q in
  (inject_Z f <= q)%Q /\ (q < inject_Z f + 1)%Q /\
  ((q - inject_Z f < 1 # 2)%Q /\ round_half_even q = f \/
   (q - inject_Z f == 1 # 2)%Q /\
     round_half_even q = (if Z.even f then f else f + 1)%Z \/
   (1 # 2 < q - inject_Z f)%Q /\ round_half_even q = (f + 1)%Z).
Proof.
  cbv zeta. pose proof (Qfloor_le q) as Hlo. pose proof (Qlt_floor q) as Hhi.
  rewrite inject_Z_plus in Hhi. change (inject_Z 1) with 1%Q in Hhi.
  split; [exact Hlo|]. split; [exact Hhi|].
  unfold round_half_even.
  destruct (q - inject_Z (Qfloor q) ?= 1 # 2)%Q eqn:E.
  - right. left. apply Qeq_alt in E. split; [exact E | reflexivity].
  - left. apply Qlt_alt in E. split; [exact E | reflexivity].
  - right. right. apply Qgt_alt in E. split; [exact E | reflexivity].
Qed.

Lemma round_half_even_integer z : round_half_even (inject_Z z) = z.
Proof.
  destruct (round_half_even_cases (inject_Z z)) as (Hlo & Hhi & H).
  rewrite Qfloor_Z in *.
  destruct H as [[_ H] | [[H _] | [H _]]]; [exact H | exfalso; lra | exfalso; lra].
Qed.

Lemma round_half_even_monotone q1 q2 :
  (q1 <= q2)%Q -> (round_half_even q1 <= round_half_even q2)%Z.
Proof.
  intros Hle. pose proof (Qfloor_resp_le _ _ Hle) as Hf.
  destruct (round_half_even_cases q1) as (Hlo1 & Hhi1 & H1).
  destruct (round_half_even_cases q2) as (Hlo2 & Hhi2 & H2).
  set (f1 := Qfloor q1) in *. set (f2 := Qfloor q2) in *.
  assert (Hr1 : (f1 <= round_half_even q1 <= f1 + 1)%Z).
  { destruct H1 as [[_ ->] | [[_ ->] | [_ ->]]]; [lia | destruct (Z.even f1); lia | lia]. }
  assert (Hr2 : (f2 <= round_half_even q2 <= f2 + 1)%Z).
  { destruct H2 as [[_ ->] | [[_ ->] | [_ ->]]]; [lia | destruct (Z.even f2); lia | lia]. }
  destruct (Z.eq_dec f1 f2) as [Heq | Hne]; [|lia].
  rewrite <- Heq in *. clear Heq Hf.
  destruct H1 as [[D1 ->] | [[D1 ->] | [D1 ->]]];
    destruct H2 as [[D2 ->] | [[D2 ->] | [D2 ->]]];
    try lia; try (destruct (Z.even f1); lia); exfalso; lra.
Qed.

Lemma round_half_even_half z :
  round_half_even (inject_Z z + (1 # 2)) = if Z.even z then z else (z + 1)%Z.
Proof.
  destruct (round_half_even_cases (inject_Z z + (1 # 2))) as (Hlo & Hhi & H).
  assert (Hf : Qfloor (inject_Z z + (1 # 2)) = z).
  { set (f := Qfloor _) in *.
    assert (inject_Z f < inject_Z (z + 1))%Q
      by (rewrite inject_Z_plus; change (inject_Z 1) with 1%Q; lra).
    assert (inject_Z z < inject_Z (f + 1))%Q
      by (rewrite inject_Z_plus; change (inject_Z 1) with 1%Q; lra).
    rewrite <- Zlt_Qlt in *. lia. }
  rewrite Hf in *.
  destruct H as [[D _] | [[_ ->] | [D _]]]; [exfalso; lra | reflexivity | exfalso; lra].
Qed.

Lemma round_half_even_Qeq q1 q2 :
  (q1 == q2)%Q -> round_half_even q1 = round_half_even q2.
Proof.
  intros H. apply Z.le_antisymm; apply round_half_even_monotone; lra.
Qed.

Lemma Qsum_bounds (xs : list Q) (lo hi : Q) :
  (forall x, In x xs -> lo <= x /\ x <= hi)%Q ->
  (inject_Z (Z.of_nat (List.length xs)) * lo <= Qsum xs /\
   Qsum xs <= inject_Z (Z.of_nat (List.length xs)) * hi)%Q.
Proof.
  induction xs as [|x xs IH]; intros H.
  - unfold Qsum. cbn [List.length fold_right].
    change (inject_Z (Z.of_nat 0)) with 0%Q. split; lra.
  - destruct (H x (or_introl eq_refl)) as [Hx1 Hx2].
    destruct IH as [IH1 IH2]; [intros y Hy; apply H; right; exact Hy|].
    cbn [List.length Qsum fold_right]. fold (Qsum xs).
    rewrite Nat2Z.inj_succ. unfold Z.succ. rewrite inject_Z_plus.
    change (inject_Z 1) with 1%Q. split; lra.
Qed.

Lemma mean_bounds (xs : list Q) (lo hi : Q) :
  xs <> [] ->
  (forall x, In x xs -> lo <= x /\ x <= hi)%Q ->
  exists m, mean xs = fin m /\ (lo <= m /\ m <= hi)%Q.
Proof.
  intros Hne H. destruct xs as [|x xs]; [congruence|].
  eexists. split; [reflexivity|].
  destruct (Qsum_bounds (x :: xs) lo hi H) as [H1 H2].
  set (n := inject_Z (Z.of_nat (List.length (x :: xs)))) in *.
  assert (Hn : (0 < n)%Q).
  { unfold n. change 0%Q with (inject_Z 0). rewrite <- Zlt_Qlt. cbn [List.length]. lia. }
  split.
  - apply Qle_shift_div_l; [exact Hn|]. rewrite Qmult_comm. exact H1.
  - apply Qle_shift_div_r; [exact Hn|]. rewrite Qmult_comm. exact H2.
Qed.

(** X14. The average tenure shown lies between the smallest and the largest
    tenure of the selected rows. *)
Theorem average_tenure_bounds (p : list PredictionRecord) (t : Q) (s : Stats) (lo hi : Z) :
  stats p t = Ok s ->
  (forall r, In r (churned_employees p t) -> (lo <= YearsAtCompany r <= hi)%Z) ->
  (lo <= averageTenure s <= hi)%Z.
Proof.
  intros Hs Hb.
  destruct (stats_cases p t) as [[_ H] | [(_ & _ & H) | (_ & Hc & _)]]; try congruence.
  destruct (mean_bounds (tenures (churned_employees p t)) (inject_Z lo) (inject_Z hi))
    as (m & Hm & Hlo & Hhi).
  - unfold tenures. destruct (churned_employees p t); [congruence | discriminate].
  - intros x Hx. unfold tenures in Hx. apply in_map_iff in Hx.
    destruct Hx as (r & <- & Hr). rewrite <- !Zle_Qle. apply Hb, Hr.
  - rewrite stats_unfold in Hs.
    destruct (fraction_of p t) as [f|e]; cbn [bind] in Hs; [|discriminate].
    unfold stat_tenure in Hs. fold (tenures (churned_employees p t)) in Hs.
    rewrite Hm in Hs. cbn [round bind] in Hs. injection Hs as <-. cbn [averageTenure].
    rewrite <- (round_half_even_integer lo), <- (round_half_even_integer hi).
    split; apply round_half_even_monotone; assumption.
Qed.

Lemma stats_average p t s :
  stats p t = Ok s ->
  exists m, mean_tenure (churned_employees p t) = fin m /\
            averageTenure s = round_half_even m.
Proof.
  intros Hs. rewrite stats_unfold in Hs.
  destruct (fraction_of p t) as [f|e]; cbn [bind] in Hs; [|discriminate].
  unfold stat_tenure in Hs. fold (tenures (churned_employees p t)) in Hs.
  fold (mean_tenure (churned_employees p t)) in Hs.
  destruct (mean_tenure (churned_employees p t)) as [|m]; cbn [round bind] in Hs;
    [discriminate|].
  injection Hs as <-. exists m. split; reflexivity.
Qed.

(** X13. The average tenure shown is the mean itself when the mean is a
    whole number, and the even one of the two nearest whole numbers when the
    mean lies halfway between them. *)
Theorem average_tenure_rounding (p : list PredictionRecord) (t : Q) (s : Stats) (m : Q) (k : Z) :
  stats p t = Ok s ->
  mean_tenure (churned_employees p t) = fin m ->
  ((m == inject_Z k)%Q -> averageTenure s = k) /\
  ((m == inject_Z k + (1 # 2))%Q ->
   averageTenure s = if Z.even k then k else (k + 1)%Z).
Proof.
  intros Hs Hm. destruct (stats_average p t s Hs) as (m' & Hm' & ->).
  assert (m' = m) by congruence. subst m'. split; intros H.
  - rewrite (round_half_even_Qeq _ _ H). apply round_half_even_integer.
  - rewrite (round_half_even_Qeq _ _ H). apply round_half_even_half.
Qed.


(** ** More on the threshold filter *)

Lemma exceeds_weaken t1 t2 r :
  (t1 <= t2)%Q -> exceeds t2 r = true -> exceeds t1 r = true.
Proof.
  rewrite !exceeds_true. intros H12 H2. eapply Qle_lt_trans; eauto.
Qed.

Lemma churned_again p t1 t2 :
  (t1 <= t2)%Q ->
  churned_employees (churned_employees p t1) t2 = churned_employees p t2.
Proof.
  intros H12. unfold churned_employees. induction p as [|r p IH]; [reflexivity|].
  cbn [List.filter].
  destruct (exceeds t2 r) eqn:E2.
  - rewrite (exceeds_weaken _ _ _ H12 E2). cbn [List.filter]. rewrite E2, IH. reflexivity.
  - destruct (exceeds t1 r); [cbn [List.filter]; rewrite E2|]; exact IH.
Qed.

(** X15. Raising the threshold selects among the rows already selected:
    filtering the selection at t1 by t2 >= t1 gives the selection at t2, and
    every row selected at t2 is selected at t1. *)
Theorem churned_nested (p : list PredictionRecord) (t1 t2 : Q) :
  (t1 <= t2)%Q ->
  churned_employees (churned_employees p t1) t2 = churned_employees p t2 /\
  incl (churned_employees p t2) (churned_employees p t1).
Proof.
  intros H12. split; [apply churned_again, H12|].
  intros r Hr. apply churned_In in Hr. apply churned_In.
  destruct Hr as [Hin Hlt]. split; [exact Hin|]. eapply Qle_lt_trans; eauto.
Qed.

Lemma filter_length_full {A} (f : A -> bool) (l : list A) :
  List.length (List.filter f l) = List.length l -> List.filter f l = l.
Proof.
  induction l as [|a l IH]; [reflexivity|]. cbn [List.filter].
  destruct (f a); cbn [List.length]; intros H.
  - f_equal. apply IH. lia.
  - pose proof (filter_length_le f l). lia.
Qed.

Lemma Qmake_le_num (a b : Z) (d : positive) : (a <= b)%Z -> (a # d <= b # d)%Q.
Proof. intros H. unfold Qle. cbn [Qnum Qden]. nia. Qed.

(** X16. On a table with rows the fraction is 0.0 exactly when no row is
    selected and 1.0 exactly when every row is, and it does not increase
    when the threshold does. *)
Theorem fraction_extremes (p : list PredictionRecord) (t : Q) :
  p <> [] ->
  exists f, fraction_of p t = Ok f /\
    ((f == 0)%Q <-> churned_employees p t = []) /\
    ((f == 1)%Q <-> churned_employees p t = p) /\
    (forall t' f', (t <= t')%Q -> fraction_of p t' = Ok f' -> (f' <= f)%Q).
Proof.
  intros Hne. destruct p as [|r p]; [congruence|].
  rewrite fraction_of_cons. eexists. split; [reflexivity|].
  split; [|split].
  - unfold Qeq. cbn [Qnum Qden]. split.
    + intros H. apply length_zero_iff_nil. lia.
    + intros ->. reflexivity.
  - unfold Qeq. cbn [Qnum Qden]. rewrite pos_of_nat_succ. split.
    + intros H. apply filter_length_full. fold (churned_employees (r :: p) t).
      cbn [List.length]. lia.
    + intros ->. cbn [List.length]. lia.
  - intros t' f' Hle Hf'. rewrite fraction_of_cons in Hf'. injection Hf' as <-.
    apply Qmake_le_num. apply inj_le.
    change (List.length (churned_employees (r :: p) t')
            <= List.length (churned_employees (r :: p) t))%nat.
    rewrite <- (churned_again (r :: p) t t' Hle).
    apply churned_length_le.
Qed.


(** ** More on the ranker *)

(** X17. With N at least the number of selected columns the ranker returns a
    row for every selected column; with a smaller N it returns the tail of
    what it returns for a larger one. *)
Theorem get_varimp_top_n (m : AttributionMatrix) (n n' : nat) :
  ((List.length (selected_columns m) <= n)%nat ->
   Permutation (get_varimp m n) (importance_rows m)) /\
  ((n <= n')%nat -> exists dropped, get_varimp m n' = dropped ++ get_varimp m n).
Proof.
  split.
  - intros Hn. unfold get_varimp.
    rewrite firstn_all2.
    + eapply perm_trans; [apply Permutation_sym, Permutation_rev|].
      apply Permutation_sym, sort_values_desc_perm.
    + rewrite <- (Permutation_length (sort_values_desc_perm (importance_rows m))).
      unfold importance_rows. rewrite !length_map. exact Hn.
  - intros Hn. unfold get_varimp.
    set (s := sort_values_desc (importance_rows m)).
    exists (rev (skipn n (firstn n' s))).
    rewrite <- rev_app_distr. f_equal.
    rewrite <- (firstn_skipn n (firstn n' s)) at 1. f_equal.
    rewrite firstn_firstn. rewrite Nat.min_l by exact Hn. reflexivity.
Qed.

Lemma Qsum_nonneg (xs : list Q) :
  (forall x, In x xs -> 0 <= x)%Q -> (0 <= Qsum xs)%Q.
Proof.
  induction xs as [|x xs IH]; intros H.
  - apply Qle_refl.
  - cbn [Qsum fold_right]. fold (Qsum xs).
    pose proof (H x (or_introl eq_refl)).
    pose proof (IH (fun y Hy => H y (or_intror Hy))). lra.
Qed.

Lemma mean_abs_cases (col : list Q) :
  (col = [] /\ mean_abs col = nan) \/
  (col <> [] /\ exists x, mean_abs col = fin x /\ (0 <= x)%Q).
Proof.
  destruct col as [|c col]; [left; split; reflexivity|].
  right. split; [discriminate|]. eexists. split; [reflexivity|].
  apply Qle_shift_div_l.
  - change 0%Q with (inject_Z 0). rewrite <- Zlt_Qlt. cbn [List.length List.map]. lia.
  - rewrite Qmult_0_l. apply Qsum_nonneg.
    intros x Hx. apply in_map_iff in Hx. destruct Hx as (y & <- & _). apply Qabs_nonneg.
Qed.

(** X18. Every row returned by the ranker comes from a selected column: its
    name is the column's name without the marker and its importance is [nan]
    if the column has no rows and a number that is not negative otherwise. *)
Theorem get_varimp_rows (m : AttributionMatrix) (n : nat) (name : string) (v : pyfloat) :
  In (name, v) (get_varimp m n) ->
  exists col,
    In col (selected_columns m) /\
    name = replace "contrib_" "" (fst col) /\
    ((snd col = [] /\ v = nan) \/
     (snd col <> [] /\ exists x, v = fin x /\ (0 <= x)%Q)).
Proof.
  intros Hin. unfold get_varimp in Hin. apply in_rev in Hin. apply In_firstn in Hin.
  apply (Permutation_in _ (Permutation_sym (sort_values_desc_perm _))) in Hin.
  unfold importance_rows in Hin. rewrite map_map in Hin. apply in_map_iff in Hin.
  destruct Hin as (col & Heq & Hcol). cbn [fst snd] in Heq. injection Heq as <- <-.
  exists col. split; [exact Hcol|]. split; [reflexivity|].
  apply mean_abs_cases.
Qed.

Lemma Qabs_opp_eq (x : Q) : Qabs (- x) = Qabs x.
Proof. destruct x as [a d]. unfold Qabs, Qopp. cbn [Qnum Qden]. rewrite Z.abs_opp. reflexivity. Qed.

(** X19. The ranking looks at absolute values only: changing the sign of
    every value of the table changes nothing. *)
Theorem get_varimp_flip_signs (m : AttributionMatrix) (n : nat) :
  get_varimp (flip_signs m) n = get_varimp m n.
Proof.
  unfold get_varimp. f_equal. f_equal. f_equal.
  unfold importance_rows, selected_columns, flip_signs.
  induction m as [|[name col] m IH]; [reflexivity|].
  cbn [List.map List.filter fst snd].
  destruct (is_feature name); cbn [List.map fst snd]; [|exact IH].
  rewrite IH. f_equal. f_equal. unfold mean_abs. rewrite map_map.
  f_equal. apply map_ext. intros x. apply Qabs_opp_eq.
Qed.


(** ** The employee table of a run of [home] *)

(** X8. When [home] returns, the table card lists the selected rows in the
    order of the table, one row per employee under the employee's number,
    with a cell for the identifier, for every ranked feature (at most five)
    and for the prediction. *)
Theorem home_table_card (q : Query) :
  result home q = Ok tt ->
  exists t rows,
    current_threshold q = Some t /\
    page (exec home q) !! "table_card"
    = Some (form_card [table (table_columns (ranking q)) rows]) /\
    List.map fst rows
    = List.map EmployeeNumber (churned_employees (app_predictions (app q)) t) /\
    Forall (fun row => List.length (snd row) = List.length (table_columns (ranking q))) rows /\
    (2 <= List.length (table_columns (ranking q)) <= 7)%nat.
Proof.
  unfold result, exec. rewrite home_unfold. cbv zeta.
  destruct (current_threshold q) as [t|]; cbn [selection].
  2:{ destruct (stats_of_cases [] (app_predictions (app q)))
        as [[_ H] | [(_ & _ & H) | (_ & Hc & _)]];
        [rewrite H; discriminate | rewrite H; discriminate | contradiction]. }
  destruct (stats_of _ _) as [s|e]; [|discriminate].
  fold (ranking q). fold (table_columns (ranking q)).
  destruct (traverse _ _) as [rows|e] eqn:Et; [|discriminate].
  intros _. exists t, rows. split; [reflexivity|]. split.
  { cbn [fst]. unfold exec. cbn [add_card modify fst page set_page set_client].
    apply lookup_insert_eq. }
  destruct (traverse_table_rows _ _ _ Et) as [H1 H2].
  split; [exact H1|]. split; [exact H2|].
  unfold table_columns. cbn [List.length]. rewrite length_app, length_map.
  unfold ranking. pose proof (get_varimp_length (app_shapley (app q)) default_top_n) as Hl.
  cbn [List.length]. unfold default_top_n in *. lia.
Qed.

(** ** [add_card] followed by [clear_cards] *)

(** X2. A card added with [add_card] is on the page under its name and
    tracked; the next [clear_cards] takes it off the page unless its name is
    to be ignored. *)
Theorem add_card_clear_cards (name : string) (card : Card) (ignore : list string) (q : Query) :
  (page (exec (add_card name card) q) !! name = Some card /\
   name ∈ client_cards (client (exec (add_card name card) q))) /\
  (~ In name ignore ->
   page (exec (add_card name card ;; clear_cards ignore)%handler q) !! name = None) /\
  (In name ignore ->
   page (exec (add_card name card ;; clear_cards ignore)%handler q) !! name = Some card).
Proof.
  assert (Hp : page (exec (add_card name card) q) !! name = Some card)
    by (unfold exec; cbn; apply lookup_insert_eq).
  assert (Hc : name ∈ client_cards (client (exec (add_card name card) q)))
    by (unfold exec; cbn; set_solver).
  split; [split; assumption|].
  rewrite exec_bindM. cbn [result add_card modify snd].
  rewrite clear_cards_page. rewrite bool_decide_eq_true_2 by exact Hc. cbn [andb].
  split.
  - intros Hn. destruct (ignored ignore name) eqn:E; [|reflexivity].
    apply ignored_In in E. contradiction.
  - intros Hi. apply ignored_In in Hi. rewrite Hi. exact Hp.
Qed.


(** ** The properties on concrete requests *)

Lemma home_returns_iff_witness :
  let q := served example_matrix (slider_event (2 # 10)) in
  chartable (app_predictions (app q)) /\
  (result home q = Ok tt <->
   exists t, current_threshold q = Some t /\
     churned_employees (app_predictions (app q)) t <> [] /\
     forall r name,
       In r (churned_employees (app_predictions (app q)) t) ->
       In name (List.map fst (ranking q)) ->
       has_column r name = true).
Proof.
  cbv zeta.
  assert (H : chartable (app_predictions
                           (app (served example_matrix (slider_event (2 # 10))))))
    by (unfold chartable, chart_row_limit; cbn; lia).
  split; [exact H|].
  exact (home_returns_iff (served example_matrix (slider_event (2 # 10))) H).
Defined.

Lemma home_raises_witness :
  let q := served example_matrix (slider_event (9 # 10)) in
  chartable (app_predictions (app q)) /\
  (result home q = Raise ValueError <->
   app_predictions (app q) <> [] /\ selected q = []).
Proof.
  cbv zeta.
  assert (H : chartable (app_predictions
                           (app (served example_matrix (slider_event (9 # 10))))))
    by (unfold chartable, chart_row_limit; cbn; lia).
  split; [exact H|].
  exact (proj1 (proj2 (home_raises (served example_matrix (slider_event (9 # 10))) H))).
Defined.

Lemma home_tracked_cards_witness :
  let q := served example_matrix (slider_event (2 # 10)) in
  chartable (app_predictions (app q)) /\
  (result home q = Ok tt <-> client_cards (client (exec home q)) = home_cards).
Proof.
  cbv zeta.
  assert (H : chartable (app_predictions
                           (app (served example_matrix (slider_event (2 # 10))))))
    by (unfold chartable, chart_row_limit; cbn; lia).
  split; [exact H|].
  exact (proj1 (proj2 (proj2
           (home_tracked_cards (served example_matrix (slider_event (2 # 10))) H)))).
Defined.

Lemma serve_marks_client_witness :
  let q := set_args home_event fresh in
  let tables := app (loaded example_predictions example_matrix q) in
  client_initialized (client q) = false /\
  chartable (app_predictions tables) /\
  (client_initialized
     (client (exec (serve example_predictions example_matrix route_by_name not_subscriptable)
                   q)) = true <->
   churned_employees (app_predictions tables) (first_threshold (args q)) <> [] /\
   forall r name,
     In r (churned_employees (app_predictions tables) (first_threshold (args q))) ->
     In name (List.map fst (get_varimp (app_shapley tables) default_top_n)) ->
     has_column r name = true).
Proof.
  cbv zeta.
  assert (H : chartable (app_predictions
                           (app (loaded example_predictions example_matrix
                                   (set_args home_event fresh)))))
    by (unfold chartable, chart_row_limit; cbn; lia).
  split; [reflexivity|]. split; [exact H|].
  exact (serve_marks_client example_predictions example_matrix route_by_name
           not_subscriptable (set_args home_event fresh) eq_refl H).
Defined.


Lemma average_tenure_bounds_witness :
  stats example_predictions (2 # 10)
  = Ok {| count := 2; fraction := 2 # 2; averageTenure := 3 |} /\
  (forall r, In r (churned_employees example_predictions (2 # 10)) ->
             (2 <= YearsAtCompany r <= 4)%Z) /\
  (2 <= 3 <= 4)%Z.
Proof.
  assert (Hs : stats example_predictions (2 # 10)
               = Ok {| count := 2; fraction := 2 # 2; averageTenure := 3 |}) by reflexivity.
  assert (Hb : forall r, In r (churned_employees example_predictions (2 # 10)) ->
                         (2 <= YearsAtCompany r <= 4)%Z).
  { intros r [<- | [<- | []]]; cbn; lia. }
  split; [exact Hs|]. split; [exact Hb|].
  exact (average_tenure_bounds example_predictions (2 # 10) _ 2 4 Hs Hb).
Defined.

Lemma churned_nested_witness :
  (2 # 10 <= 5 # 10)%Q /\
  churned_employees (churned_employees example_predictions (2 # 10)) (5 # 10)
  = churned_employees example_predictions (5 # 10).
Proof.
  assert (H : (2 # 10 <= 5 # 10)%Q) by (unfold Qle; cbn; lia).
  split; [exact H|].
  exact (proj1 (churned_nested example_predictions (2 # 10) (5 # 10) H)).
Defined.

Lemma fraction_extremes_witness :
  example_predictions <> [] /\
  exists f, fraction_of example_predictions (5 # 10) = Ok f /\
    ((f == 0)%Q <-> churned_employees example_predictions (5 # 10) = []) /\
    ((f == 1)%Q <-> churned_employees example_predictions (5 # 10) = example_predictions) /\
    (forall t' f', (5 # 10 <= t')%Q -> fraction_of example_predictions t' = Ok f' ->
                   (f' <= f)%Q).
Proof.
  assert (H : example_predictions <> []) by discriminate.
  split; [exact H|].
  exact (fraction_extremes example_predictions (5 # 10) H).
Defined.

Lemma get_varimp_rows_witness :
  In ("B", mean_abs [-3 # 10; 3 # 10]%Q) (get_varimp example_matrix 2) /\
  exists col,
    In col (selected_columns example_matrix) /\
    "B" = replace "contrib_" "" (fst col) /\
    ((snd col = [] /\ mean_abs [-3 # 10; 3 # 10]%Q = nan) \/
     (snd col <> [] /\ exists x, mean_abs [-3 # 10; 3 # 10]%Q = fin x /\ (0 <= x)%Q)).
Proof.
  assert (H : In ("B", mean_abs [-3 # 10; 3 # 10]%Q) (get_varimp example_matrix 2))
    by (left; reflexivity).
  split; [exact H|].
  exact (get_varimp_rows example_matrix 2 "B" _ H).
Defined.

Lemma home_table_card_witness :
  let q := served example_matrix (slider_event (2 # 10)) in
  result home q = Ok tt /\
  exists t rows,
    current_threshold q = Some t /\
    page (exec home q) !! "table_card"
    = Some (form_card [table (table_columns (ranking q)) rows]) /\
    List.map fst rows
    = List.map EmployeeNumber (churned_employees (app_predictions (app q)) t) /\
    Forall (fun row => List.length (snd row) = List.length (table_columns (ranking q))) rows /\
    (2 <= List.length (table_columns (ranking q)) <= 7)%nat.
Proof.
  cbv zeta.
  assert (H : result home (served example_matrix (slider_event (2 # 10))) = Ok tt)
    by (vm_compute; reflexivity).
  split; [exact H|].
  exact (home_table_card (served example_matrix (slider_event (2 # 10))) H).
Defined.

Lemma average_tenure_rounding_witness :
  let p := [employee 1 (6 # 10) 2; employee 2 (7 # 10) 3] in
  let m := (Qsum [inject_Z 2; inject_Z 3] / inject_Z 2)%Q in
  stats p (5 # 10) = Ok {| count := 2; fraction := 2 # 2; averageTenure := 2 |} /\
  mean_tenure (churned_employees p (5 # 10)) = fin m /\
  (m == inject_Z 2 + (1 # 2))%Q /\
  2%Z = (if Z.even 2 then 2 else 2 + 1)%Z.
Proof.
  cbv zeta.
  assert (Hs : stats [employee 1 (6 # 10) 2; employee 2 (7 # 10) 3] (5 # 10)
               = Ok {| count := 2; fraction := 2 # 2; averageTenure := 2 |}) by reflexivity.
  assert (Hm : mean_tenure (churned_employees
                              [employee 1 (6 # 10) 2; employee 2 (7 # 10) 3] (5 # 10))
               = fin (Qsum [inject_Z 2; inject_Z 3] / inject_Z 2)) by reflexivity.
  assert (He : (Qsum [inject_Z 2; inject_Z 3] / inject_Z 2 == inject_Z 2 + (1 # 2))%Q)
    by reflexivity.
  split; [exact Hs|]. split; [exact Hm|]. split; [exact He|].
  exact (proj2 (average_tenure_rounding _ _ _ _ 2 Hs Hm) He).
Defined.
